(** * Bluesky social graph explorer: a shallow embedding of
      [bluesky_social_graph.py] and the properties of its fetch, reconcile
      and export logic.

    Conventions of the embedding.

    - A Python [str] is a Rocq [string]: the UTF-8 bytes of the text.
    - The dataclasses [Profile], [GraphEntry] and [SocialGraph] are records
      with the field types their annotations declare.  A value decoded from
      a service response that is not of the declared type cannot be stored
      in such a record; Python would store it unchecked.  The embedding stops
      following the program there and marks the run [Untyped]; no theorem
      below draws a conclusion about the program from an [Untyped] run.
    - A parsed response body is a [json] value (JSON numbers other than
      integers are left out).  A Python [dict] obtained from JSON is an
      association list read by [dict_get], which takes the first binding
      of a key.
    - The remote service is a script: the list of responses it will give,
      in the order the requests arrive.  Every request is recorded in a
      trace, together with the pauses between pages.  A request made when
      the script is empty leaves the run [Starved]: the call has not come
      back.
    - Console output is not modelled, but the evaluation of the values that
      are printed is, wherever it can raise.
    - The file system is a map from paths to the text written.  A write is
      followed when it goes through: the encoding of the text and the
      refusals of the file system (a missing directory, a text that cannot
      be encoded) are not modelled, and what is stated of the content of a
      file is stated of an export that goes through.
    - The command line is taken as [argparse] hands it over: [main] and
      [run] start where [parse_args] has returned. *)

From Stdlib Require Import ZArith String Ascii List DecimalString.
From Stdlib Require DecimalPos DecimalZ.
From stdpp Require Import base option list gmap strings fin_sets.

#[local] Set Warnings "-register-all,-clear-no-such-hyp".
Local Open Scope Z_scope.
Local Open Scope string_scope.
Local Open Scope list_scope.

(** ** Constants *)

Definition PUBLIC_API : string := "https://public.api.bsky.app/xrpc".
Definition AUTH_API : string := "https://bsky.social/xrpc".
Definition PAGE_LIMIT : Z := 100.

(** ** Python values read from a response *)

Inductive json : Type :=
| JNull
| JBool (b : bool)
| JInt (z : Z)
| JStr (s : string)
| JArr (items : list json)
| JObj (fields : list (string * json)).

(** Exceptions the program can meet. *)
Inductive exn : Type :=
| HTTPError (status : Z)
| JSONDecodeError
| KeyError (key : string)
| TypeError
| AttributeError
| SystemExit (code : Z).

(** How a call ends. *)
Inductive outcome (A : Type) : Type :=
| Returned (a : A)
| Raised (e : exn)
| Starved
| Untyped.
Arguments Returned {A} a.
Arguments Raised {A} e.
Arguments Starved {A}.
Arguments Untyped {A}.

Definition obind {A B} (o : outcome A) (k : A → outcome B) : outcome B :=
  match o with
  | Returned a => k a
  | Raised e => Raised e
  | Starved => Starved
  | Untyped => Untyped
  end.

(** [bool(v)]: Python's truth value. *)
Definition truthy (v : json) : bool :=
  match v with
  | JNull => false
  | JBool b => b
  | JInt z => negb (Z.eqb z 0)
  | JStr s => negb (String.eqb s "")
  | JArr items => match items with [] => false | _ => true end
  | JObj fields => match fields with [] => false | _ => true end
  end.

(** [d.get(k)] on the items of a dict. *)
Fixpoint dict_get {V} (k : string) (fields : list (string * V)) : option V :=
  match fields with
  | [] => None
  | (k', v) :: rest => if String.eqb k k' then Some v else dict_get k rest
  end.

(** [v.get(k, default)]: only a dict has the method. *)
Definition py_get (v : json) (k : string) (dflt : json) : outcome json :=
  match v with
  | JObj fields => Returned (default dflt (dict_get k fields))
  | _ => Raised AttributeError
  end.

(** [v[k]]: a dict without the key raises [KeyError]; a string or a list
    wants integer indices, the other values cannot be subscripted. *)
Definition py_subscript (v : json) (k : string) : outcome json :=
  match v with
  | JObj fields =>
      match dict_get k fields with
      | Some x => Returned x
      | None => Raised (KeyError k)
      end
  | _ => Raised TypeError
  end.

(** [for item in v]: the values the loop visits.  A string yields its
    characters and a dict its keys; [None], booleans and integers are not
    iterable.  (The characters are the bytes here; the body of the loop
    fails on the first of them, so that their number is never seen.) *)
Definition py_iter (v : json) : outcome (list json) :=
  match v with
  | JArr items => Returned items
  | JStr s => Returned ((λ c, JStr (String c EmptyString)) <$> list_ascii_of_string s)
  | JObj fields => Returned ((λ kv, JStr kv.1) <$> fields)
  | _ => Raised TypeError
  end.

(** The declared field types: a value of another type is not followed. *)
Definition as_str (v : json) : outcome string :=
  match v with JStr s => Returned s | _ => Untyped end.

Definition as_int (v : json) : outcome Z :=
  match v with JInt z => Returned z | _ => Untyped end.

(** ** Data classes *)

Module Profile.
Record t : Type := mk {
  did : string;
  handle : string;
  display_name : string;
  description : string;
  followers_count : Z;
  follows_count : Z;
  posts_count : Z
}.
End Profile.

Module GraphEntry.
Record t : Type := mk {
  did : string;
  handle : string;
  display_name : string;
  description : string;
  indexed_at : string
}.
End GraphEntry.

Module SocialGraph.
Record t : Type := mk {
  actor : string;
  profile : option Profile.t;
  followers : list GraphEntry.t;
  follows : list GraphEntry.t;
  mutuals : list GraphEntry.t
}.
End SocialGraph.

(** The [Profile(...)] expression of [get_profile]: the keyword arguments
    are evaluated in order, then stored. *)
Definition profile_of_json (d : json) : outcome Profile.t :=
  obind (py_subscript d "did") (λ v_did,
  obind (py_subscript d "handle") (λ v_handle,
  obind (py_get d "displayName" (JStr "")) (λ v_name,
  obind (py_get d "description" (JStr "")) (λ v_desc,
  obind (py_get d "followersCount" (JInt 0)) (λ v_followers,
  obind (py_get d "followsCount" (JInt 0)) (λ v_follows,
  obind (py_get d "postsCount" (JInt 0)) (λ v_posts,
  obind (as_str v_did) (λ did,
  obind (as_str v_handle) (λ handle,
  obind (as_str v_name) (λ display_name,
  obind (as_str v_desc) (λ description,
  obind (as_int v_followers) (λ followers_count,
  obind (as_int v_follows) (λ follows_count,
  obind (as_int v_posts) (λ posts_count,
  Returned (Profile.mk did handle display_name description
              followers_count follows_count posts_count))))))))))))))).

(** The [GraphEntry(...)] expression in the loop of [_paginate]. *)
Definition entry_of_item (item : json) : outcome GraphEntry.t :=
  obind (py_subscript item "did") (λ v_did,
  obind (py_subscript item "handle") (λ v_handle,
  obind (py_get item "displayName" (JStr "")) (λ v_name,
  obind (py_get item "description" (JStr "")) (λ v_desc,
  obind (py_get item "indexedAt" (JStr "")) (λ v_indexed,
  obind (as_str v_did) (λ did,
  obind (as_str v_handle) (λ handle,
  obind (as_str v_name) (λ display_name,
  obind (as_str v_desc) (λ description,
  obind (as_str v_indexed) (λ indexed_at,
  Returned (GraphEntry.mk did handle display_name description
              indexed_at))))))))))).

(** The inner [for] loop of [_paginate]: every item is appended to
    [entries]; the first item that fails ends the loop. *)
Fixpoint append_items (entries : list GraphEntry.t) (items : list json)
  : outcome (list GraphEntry.t) :=
  match items with
  | [] => Returned entries
  | item :: rest =>
      obind (entry_of_item item) (λ e, append_items (entries ++ [e]) rest)
  end.

(** ** The service, the trace and the file system *)

Inductive http_method : Type := GET | POST.

Record request : Type := mk_request {
  req_method : http_method;
  req_url : string;
  req_params : list (string * json);   (* the query, [params=] *)
  req_json : option json;              (* the body, [json=] *)
  req_authorization : option string    (* the session's Authorization header *)
}.

(** A response: its status code and what [resp.json()] gives, [None] when
    the body is not JSON. *)
Record response : Type := mk_response {
  status_code : Z;
  body : option json
}.

Inductive event : Type :=
| EvRequest (r : request)
| EvSleep.                             (* [time.sleep(REQUEST_DELAY)] *)

Record world : Type := mk_world {
  script : list response;
  trace : list event;
  files : gmap string string
}.

Definition M (A : Type) : Type := world → outcome A * world.

#[global] Instance M_ret : MRet M := λ A a w, (Returned a, w).
#[global] Instance M_bind : MBind M := λ A B k m w,
  match m w with
  | (Returned a, w') => k a w'
  | (Raised e, w') => (Raised e, w')
  | (Starved, w') => (Starved, w')
  | (Untyped, w') => (Untyped, w')
  end.

Definition lift {A} (o : outcome A) : M A := λ w, (o, w).

Definition log (ev : event) : M unit := λ w,
  (Returned (), mk_world (script w) (trace w ++ [ev]) (files w)).

(** The next response of the script. *)
Definition receive : M response := λ w,
  match script w with
  | [] => (Starved, w)
  | resp :: rest => (Returned resp, mk_world rest (trace w) (files w))
  end.

(** The request goes out; the service answers. *)
Definition send (r : request) : M response :=
  log (EvRequest r);; receive.

Definition sleep : M unit := log EvSleep.

(** [Path(path).write_text(content)], and the writes of [export_csv]
    taken together, when they go through: the file then holds the text.
    A write that the file system refuses raises, after the file may have
    been created; such a run is not followed. *)
Definition write_text (path content : string) : M unit := λ w,
  (Returned (), mk_world (script w) (trace w) (<[path := content]> (files w))).

(** [requests]: [Response.raise_for_status] raises for the client and
    server error statuses, 400 to 599. *)
Definition is_error (status : Z) : bool :=
  ((400 <=? status) && (status <? 600))%Z.

Definition raise_for_status (resp : response) : outcome unit :=
  if is_error (status_code resp)
  then Raised (HTTPError (status_code resp))
  else Returned ().

Definition response_json (resp : response) : outcome json :=
  match body resp with
  | Some v => Returned v
  | None => Raised JSONDecodeError
  end.

(** ** API client *)

Module BlueskyClient.
Record t : Type := mk {
  access_token : option string;
  did : option string;
  authenticated : bool;
  authorization : option string      (* [session.headers["Authorization"]] *)
}.
End BlueskyClient.

Definition session_post (self : BlueskyClient.t) (url : string) (payload : json)
  : M response :=
  send (mk_request POST url [] (Some payload) (BlueskyClient.authorization self)).

Definition session_get (self : BlueskyClient.t) (url : string)
    (params : list (string * json)) : M response :=
  send (mk_request GET url params None (BlueskyClient.authorization self)).

Definition _login (self : BlueskyClient.t) (handle password : string)
  : M BlueskyClient.t :=
  resp ← session_post self (AUTH_API +:+ "/com.atproto.server.createSession")
           (JObj [("identifier", JStr handle); ("password", JStr password)]);
  lift (raise_for_status resp);;
  data ← lift (response_json resp);
  v_token ← lift (py_subscript data "accessJwt");
  v_did ← lift (py_subscript data "did");
  _ ← lift (py_subscript data "handle");       (* printed *)
  token ← lift (as_str v_token);
  did ← lift (as_str v_did);
  mret (BlueskyClient.mk (Some token) (Some did) true
          (Some ("Bearer " +:+ token))).

Definition str_truthy (s : string) : bool := negb (String.eqb s "").

(** [BlueskyClient.__init__] *)
Definition new_client (handle password : option string) : M BlueskyClient.t :=
  let self := BlueskyClient.mk None None false None in
  match handle, password with
  | Some h, Some p =>
      if str_truthy h && str_truthy p then _login self h p else mret self
  | _, _ => mret self
  end.

Definition base_url (self : BlueskyClient.t) : string :=
  if BlueskyClient.authenticated self then AUTH_API else PUBLIC_API.

Definition get_profile (self : BlueskyClient.t) (actor : string) : M Profile.t :=
  resp ← session_get self (PUBLIC_API +:+ "/app.bsky.actor.getProfile")
           [("actor", JStr actor)];
  lift (raise_for_status resp);;
  d ← lift (response_json resp);
  lift (profile_of_json d).

(** The query of one page request. *)
Definition page_params (actor : string) (cursor : json) : list (string * json) :=
  [("actor", JStr actor); ("limit", JInt PAGE_LIMIT)]
  ++ (if truthy cursor then [("cursor", cursor)] else []).

(** The [while True] loop of [_paginate].  [fuel] bounds the number of
    iterations; [_paginate] gives it more than the script can feed. *)
Fixpoint paginate_loop (fuel : nat) (self : BlueskyClient.t)
    (endpoint actor key : string)
    (entries : list GraphEntry.t) (cursor : json) (page : nat)
  : M (list GraphEntry.t) :=
  match fuel with
  | O => lift Starved
  | S fuel' =>
      resp ← session_get self (base_url self +:+ "/" +:+ endpoint)
               (page_params actor cursor);
      lift (raise_for_status resp);;
      data ← lift (response_json resp);
      v_items ← lift (py_get data key (JArr []));
      items ← lift (py_iter v_items);
      entries' ← lift (append_items entries items);
      cursor' ← lift (py_get data "cursor" JNull);
      let page' := S page in
      if negb (truthy cursor') then mret entries'
      else
        sleep;;
        paginate_loop fuel' self endpoint actor key entries' cursor' page'
  end.

Definition _paginate (self : BlueskyClient.t) (endpoint actor key : string)
  : M (list GraphEntry.t) := λ w,
  paginate_loop (S (length (script w))) self endpoint actor key [] JNull 0 w.

Definition get_followers (self : BlueskyClient.t) (actor : string)
  : M (list GraphEntry.t) :=
  _paginate self "app.bsky.graph.getFollowers" actor "followers".

Definition get_follows (self : BlueskyClient.t) (actor : string)
  : M (list GraphEntry.t) :=
  _paginate self "app.bsky.graph.getFollows" actor "follows".

Definition get_social_graph (self : BlueskyClient.t) (actor : string)
  : M SocialGraph.t :=
  profile ← get_profile self actor;
  followers ← get_followers self actor;
  follows ← get_follows self actor;
  let follower_dids : gset string := list_to_set (GraphEntry.did <$> followers) in
  let mutuals := filter (λ f, GraphEntry.did f ∈ follower_dids) follows in
  mret (SocialGraph.mk actor (Some profile) followers follows mutuals).

(** ** Derived lists of [print_summary] *)

(** Fans: follow you but you don't follow back. *)
Definition fans (graph : SocialGraph.t) : list GraphEntry.t :=
  let follows_dids : gset string :=
    list_to_set (GraphEntry.did <$> SocialGraph.follows graph) in
  filter (λ f, GraphEntry.did f ∉ follows_dids) (SocialGraph.followers graph).

(** Following but not followed back. *)
Definition not_followed_back (graph : SocialGraph.t) : list GraphEntry.t :=
  let follower_dids : gset string :=
    list_to_set (GraphEntry.did <$> SocialGraph.followers graph) in
  filter (λ f, GraphEntry.did f ∉ follower_dids) (SocialGraph.follows graph).

(** ** Text helpers *)

Definition dquote : ascii := "034"%char.
Definition backslash : ascii := "092"%char.
Definition LF : ascii := "010"%char.
Definition CR : ascii := "013"%char.

Definition str (c : ascii) : string := String c EmptyString.

(** [str(n)] for an [int]. *)
Definition string_of_Z (z : Z) : string := NilZero.string_of_int (Z.to_int z).

Definition hex_digit (n : nat) : ascii :=
  nth n (list_ascii_of_string "0123456789abcdef") "0"%char.

(** ** [json.dumps(data, indent=2, ensure_ascii=False)] *)

(** One character of a string literal: the quote, the backslash and the
    control characters are escaped, everything else is kept as it is. *)
Definition escape_char (c : ascii) : string :=
  let n := nat_of_ascii c in
  if Nat.eqb n 34 then str backslash +:+ str dquote
  else if Nat.eqb n 92 then str backslash +:+ str backslash
  else if Nat.eqb n 8 then str backslash +:+ "b"
  else if Nat.eqb n 12 then str backslash +:+ "f"
  else if Nat.eqb n 10 then str backslash +:+ "n"
  else if Nat.eqb n 13 then str backslash +:+ "r"
  else if Nat.eqb n 9 then str backslash +:+ "t"
  else if Nat.ltb n 32 then
    str backslash +:+ "u00" +:+ str (hex_digit (n / 16)) +:+ str (hex_digit (n mod 16))
  else str c.

Definition encode_basestring (s : string) : string :=
  str dquote +:+ String.concat "" (escape_char <$> list_ascii_of_string s)
  +:+ str dquote.

Fixpoint spaces (n : nat) : string :=
  match n with O => "" | S n' => " " +:+ spaces n' end.

Definition newline_indent (level : nat) : string :=
  str LF +:+ spaces (2 * level).

Fixpoint dumps_at (level : nat) (v : json) {struct v} : string :=
  match v with
  | JNull => "null"
  | JBool true => "true"
  | JBool false => "false"
  | JInt z => string_of_Z z
  | JStr s => encode_basestring s
  | JArr [] => "[]"
  | JArr (x :: xs) =>
      "[" +:+ newline_indent (S level) +:+ dumps_at (S level) x
      +:+ (fix rest (l : list json) : string :=
             match l with
             | [] => ""
             | y :: l' =>
                 "," +:+ newline_indent (S level) +:+ dumps_at (S level) y
                 +:+ rest l'
             end) xs
      +:+ newline_indent level +:+ "]"
  | JObj [] => "{}"
  | JObj ((k, x) :: kvs) =>
      "{" +:+ newline_indent (S level)
      +:+ encode_basestring k +:+ ": " +:+ dumps_at (S level) x
      +:+ (fix rest (l : list (string * json)) : string :=
             match l with
             | [] => ""
             | (k', y) :: l' =>
                 "," +:+ newline_indent (S level)
                 +:+ encode_basestring k' +:+ ": " +:+ dumps_at (S level) y
                 +:+ rest l'
             end) kvs
      +:+ newline_indent level +:+ "}"
  end.

Definition json_dumps (v : json) : string := dumps_at 0 v.

(** ** [dataclasses.asdict] *)

Definition asdict_profile (p : Profile.t) : json :=
  JObj [("did", JStr (Profile.did p));
        ("handle", JStr (Profile.handle p));
        ("display_name", JStr (Profile.display_name p));
        ("description", JStr (Profile.description p));
        ("followers_count", JInt (Profile.followers_count p));
        ("follows_count", JInt (Profile.follows_count p));
        ("posts_count", JInt (Profile.posts_count p))].

Definition asdict_entry (e : GraphEntry.t) : json :=
  JObj [("did", JStr (GraphEntry.did e));
        ("handle", JStr (GraphEntry.handle e));
        ("display_name", JStr (GraphEntry.display_name e));
        ("description", JStr (GraphEntry.description e));
        ("indexed_at", JStr (GraphEntry.indexed_at e))].

(** ** Export helpers *)

Definition len {A} (l : list A) : Z := Z.of_nat (length l).

(** The dict [data] of [export_json]. *)
Definition export_json_data (graph : SocialGraph.t) : json :=
  JObj [("actor", JStr (SocialGraph.actor graph));
        ("profile", match SocialGraph.profile graph with
                    | Some p => asdict_profile p
                    | None => JNull
                    end);
        ("followers", JArr (asdict_entry <$> SocialGraph.followers graph));
        ("follows", JArr (asdict_entry <$> SocialGraph.follows graph));
        ("mutuals", JArr (asdict_entry <$> SocialGraph.mutuals graph));
        ("stats",
         JObj [("followers_count", JInt (len (SocialGraph.followers graph)));
               ("follows_count", JInt (len (SocialGraph.follows graph)));
               ("mutuals_count", JInt (len (SocialGraph.mutuals graph)))])].

Definition export_json (graph : SocialGraph.t) (path : string) : M unit :=
  write_text path (json_dumps (export_json_data graph)).

(** [csv.writer], dialect [excel]: a field is quoted when it holds the
    delimiter, the quote character or a character of the line terminator;
    a quote inside a quoted field is doubled. *)
Definition csv_special (c : ascii) : bool :=
  let n := nat_of_ascii c in
  Nat.eqb n 44 || Nat.eqb n 34 || Nat.eqb n 13 || Nat.eqb n 10.

Definition csv_field (s : string) : string :=
  let cs := list_ascii_of_string s in
  if existsb csv_special cs then
    str dquote
    +:+ String.concat ""
          ((λ c, if Ascii.eqb c dquote then str dquote +:+ str dquote else str c)
             <$> cs)
    +:+ str dquote
  else s.

Definition csv_writerow (fields : list string) : string :=
  String.concat "," (csv_field <$> fields) +:+ str CR +:+ str LF.

Definition fieldnames : list string :=
  ["relationship"; "did"; "handle"; "display_name"; "description"; "indexed_at"].

(** [DictWriter.writerow]: the values of the row in the order of the field
    names, a missing one replaced by the empty string.  Every row written
    below has exactly the field names as keys. *)
Definition dict_writerow (rowdict : list (string * string)) : string :=
  csv_writerow ((λ k, default "" (dict_get k rowdict)) <$> fieldnames).

Definition dict_writeheader : string :=
  dict_writerow (zip fieldnames fieldnames).

(** The dict passed to [writer.writerow] for an entry. *)
Definition csv_rowdict (rel : string) (entry : GraphEntry.t)
  : list (string * string) :=
  [("relationship", rel);
   ("did", GraphEntry.did entry);
   ("handle", GraphEntry.handle entry);
   ("display_name", GraphEntry.display_name entry);
   ("description", GraphEntry.description entry);
   ("indexed_at", GraphEntry.indexed_at entry)].

(** The first loop of [export_csv]: the followers. *)
Definition csv_follower_rows (graph : SocialGraph.t)
  : list (list (string * string)) :=
  let mutual_dids : gset string :=
    list_to_set (GraphEntry.did <$> SocialGraph.mutuals graph) in
  (λ entry,
     let rel := if bool_decide (GraphEntry.did entry ∈ mutual_dids)
                then "mutual" else "follower" in
     csv_rowdict rel entry) <$> SocialGraph.followers graph.

(** The second loop of [export_csv]: the follows. *)
Definition csv_follow_rows (graph : SocialGraph.t)
  : list (list (string * string)) :=
  let follow_dids : gset string :=
    list_to_set (GraphEntry.did <$> SocialGraph.followers graph) in
  csv_rowdict "following"
    <$> filter (λ entry, GraphEntry.did entry ∉ follow_dids)
          (SocialGraph.follows graph).

(** Every row written after the header, in order. *)
Definition csv_rows (graph : SocialGraph.t) : list (list (string * string)) :=
  csv_follower_rows graph ++ csv_follow_rows graph.

Definition export_csv_text (graph : SocialGraph.t) : string :=
  dict_writeheader +:+ String.concat "" (dict_writerow <$> csv_rows graph).

Definition export_csv (graph : SocialGraph.t) (path : string) : M unit :=
  write_text path (export_csv_text graph).

(** ** Command line *)

Inductive export_format : Type := ExportJson | ExportCsv.

Definition format_name (fmt : export_format) : string :=
  match fmt with ExportJson => "json" | ExportCsv => "csv" end.

Module Args.
Record t : Type := mk {
  actor : string;
  handle : option string;
  password : option string;
  export : option export_format;
  output : option string
}.
End Args.

(** [s.replace(".", "_")] *)
Definition replace_dots (s : string) : string :=
  string_of_list_ascii
    ((λ c, if Ascii.eqb c "."%char then "_"%char else c) <$> list_ascii_of_string s).

(** [try: ... except requests.HTTPError as e: ...] *)
Definition except_HTTPError {A} (m : M A) (handler : Z → M A) : M A := λ w,
  match m w with
  | (Raised (HTTPError status), w') => handler status w'
  | r => r
  end.

(** [main], from the point where [parser.parse_args()] has returned
    [args].  A command line that [argparse] refuses or answers itself
    ([--help]) ends there, with exit status 2 or 0 and before any client
    is built; it never reaches this point.  [Args.export] has the type of
    the choices that [argparse] lets through. *)
Definition main (args : Args.t) : M unit :=
  client ← new_client (Args.handle args) (Args.password args);
  graph ← except_HTTPError (get_social_graph client (Args.actor args))
            (λ _, lift (Raised (SystemExit 1)));
  match Args.export args with
  | Some fmt =>
      let safe_actor := replace_dots (Args.actor args) in
      let default_path := safe_actor +:+ "_graph." +:+ format_name fmt in
      let output_path :=
        match Args.output args with
        | Some o => if str_truthy o then o else default_path
        | None => default_path
        end in
      match fmt with
      | ExportJson => export_json graph output_path
      | ExportCsv => export_csv graph output_path
      end
  | None => mret ()
  end.

(** The exit status of the interpreter once [main] is running: 0 when it
    returns, the code of [sys.exit], and 1 for an exception nobody
    handles. *)
Definition exit_status (o : outcome unit) : outcome Z :=
  match o with
  | Returned _ => Returned 0
  | Raised (SystemExit code) => Returned code
  | Raised _ => Returned 1
  | Starved => Starved
  | Untyped => Untyped
  end.

Definition run (args : Args.t) (w : world) : outcome Z * world :=
  let (o, w') := main args w in (exit_status o, w').

(** ** What a page holds *)

(** The part of one iteration of [_paginate] after the response arrived:
    the entries with the page's items appended, and the cursor. *)
Definition page_result (key : string) (entries : list GraphEntry.t)
    (resp : response) : outcome (list GraphEntry.t * json) :=
  obind (raise_for_status resp) (λ _,
  obind (response_json resp) (λ data,
  obind (py_get data key (JArr [])) (λ v_items,
  obind (py_iter v_items) (λ items,
  obind (append_items entries items) (λ entries',
  obind (py_get data "cursor" JNull) (λ cursor',
  Returned (entries', cursor'))))))).

(** A response that one iteration processes without failing. *)
Definition page_ok (key : string) (resp : response) : bool :=
  match page_result key [] resp with Returned _ => true | _ => false end.

(** [data.get("cursor")] *)
Definition page_cursor (resp : response) : json :=
  match body resp with
  | Some (JObj fields) => default JNull (dict_get "cursor" fields)
  | _ => JNull
  end.

(** The response stops the loop: [not cursor]. *)
Definition last_page (resp : response) : bool := negb (truthy (page_cursor resp)).

(** The response has no ["cursor"] member at all. *)
Definition omits_cursor (resp : response) : bool :=
  match body resp with
  | Some (JObj fields) =>
      match dict_get "cursor" fields with None => true | Some _ => false end
  | _ => false
  end.

(** The number of items of the page: how many values the loop over
    [data.get(key, [])] visits. *)
Definition item_count (key : string) (resp : response) : nat :=
  match obind (response_json resp) (λ data,
        obind (py_get data key (JArr [])) py_iter) with
  | Returned items => length items
  | _ => 0%nat
  end.

(** ** The requests and the trace *)

(** The request of one iteration of [_paginate]. *)
Definition page_request (self : BlueskyClient.t) (endpoint actor : string)
    (cursor : json) : request :=
  mk_request GET (base_url self +:+ "/" +:+ endpoint) (page_params actor cursor)
    None (BlueskyClient.authorization self).

(** The request of [get_profile]. *)
Definition profile_request (self : BlueskyClient.t) (actor : string) : request :=
  mk_request GET (PUBLIC_API +:+ "/app.bsky.actor.getProfile")
    [("actor", JStr actor)] None (BlueskyClient.authorization self).

(** The request of [_login]. *)
Definition login_request (self : BlueskyClient.t) (handle password : string)
  : request :=
  mk_request POST (AUTH_API +:+ "/com.atproto.server.createSession") []
    (Some (JObj [("identifier", JStr handle); ("password", JStr password)]))
    (BlueskyClient.authorization self).

(** What a call added to the trace. *)
Definition new_events (w w' : world) : list event :=
  drop (length (trace w)) (trace w').

(** The requests among some events, and the number of pauses. *)
Definition requests_of (evs : list event) : list request :=
  omap (λ ev, match ev with EvRequest r => Some r | EvSleep => None end) evs.

Definition sleeps_of (evs : list event) : nat :=
  length (omap (λ ev, match ev with EvSleep => Some () | EvRequest _ => None end) evs).

(** A page that lets the loop go on: processed, with a truthy cursor. *)
Definition more_pages (key : string) (resp : response) : Prop :=
  page_ok key resp = true ∧ last_page resp = false.

(** ** The members of an item *)






(** ** The rows of the CSV file *)

(** The cells of a data row: the label, then the five fields of the entry. *)
Definition csv_cells (rel : string) (e : GraphEntry.t) : list string :=
  [rel; GraphEntry.did e; GraphEntry.handle e; GraphEntry.display_name e;
   GraphEntry.description e; GraphEntry.indexed_at e].

(** ** Fixtures for the examples *)

(** The client before any login. *)
Definition anonymous : BlueskyClient.t := BlueskyClient.mk None None false None.

(** An item with the two required members, and the entry it decodes to. *)
Definition item (did handle : string) : json :=
  JObj [("did", JStr did); ("handle", JStr handle)].

Definition entry (did handle : string) : GraphEntry.t :=
  GraphEntry.mk did handle "" "" "".

(** A page of followers with a cursor, and a last one without. *)
Definition page_one : response :=
  mk_response 200
    (Some (JObj [("followers", JArr [item "did:plc:a" "a.test"; item "did:plc:b" "b.test"]);
                 ("cursor", JStr "p2")])).

Definition page_two : response :=
  mk_response 200 (Some (JObj [("followers", JArr [item "did:plc:c" "c.test"])])).

(** A page whose cursor is present and empty. *)
Definition page_empty_cursor : response :=
  mk_response 200 (Some (JObj [("followers", JArr []); ("cursor", JStr "")])).

(** A service that will give these responses; nothing sent or written yet. *)
Definition service (responses : list response) : world := mk_world responses [] ∅.

(** The answers to a login, to a profile lookup and to a follows request. *)
Definition session_body : json :=
  JObj [("accessJwt", JStr "token"); ("did", JStr "did:plc:me");
        ("handle", JStr "me.test")].

Definition profile_body : json :=
  JObj [("did", JStr "did:plc:alice"); ("handle", JStr "alice.test");
        ("followersCount", JInt 3); ("followsCount", JInt 2)].

Definition follows_page : response :=
  mk_response 200
    (Some (JObj [("follows", JArr [item "did:plc:b" "b.test"; item "did:plc:d" "d.test"])])).

(** A command line with credentials. *)
Definition with_login : Args.t :=
  Args.mk "alice.test" (Some "me.test") (Some "app-password") None None.

(** A whole run of the builder: a profile, one page of followers A, B, C
    and one page of follows B, D. *)
Definition scenario : world :=
  service [mk_response 200 (Some profile_body);
           mk_response 200
             (Some (JObj [("followers",
                           JArr [item "did:plc:a" "a.test"; item "did:plc:b" "b.test";
                                 item "did:plc:c" "c.test"])]));
           follows_page].

(** The graph this run builds. *)
Definition scenario_graph : SocialGraph.t :=
  SocialGraph.mk "alice.test"
    (Some (Profile.mk "did:plc:alice" "alice.test" "" "" 3 2 0))
    [entry "did:plc:a" "a.test"; entry "did:plc:b" "b.test"; entry "did:plc:c" "c.test"]
    [entry "did:plc:b" "b.test"; entry "did:plc:d" "d.test"]
    [entry "did:plc:b" "b.test"].

(** A run of the builder in which the service names the one follower B
    twice among the follows. *)
Definition scenario_repeated_follow : world :=
  service [mk_response 200 (Some profile_body);
           mk_response 200 (Some (JObj [("followers", JArr [item "did:plc:b" "b.test"])]));
           mk_response 200
             (Some (JObj [("follows", JArr [item "did:plc:b" "b.test";
                                            item "did:plc:b" "b.test"])]))].

(** ** What a fetch leaves behind *)

(** The entries of one page, none when the page is not processed. *)
Definition page_entries (key : string) (resp : response) : list GraphEntry.t :=
  match page_result key [] resp with
  | Returned r => r.1
  | _ => []
  end.

(** The events of fetching [pages] one after the other, the first request
    made with [cursor]: a request per page, each with the cursor of the
    page before, and a pause between two requests. *)
Fixpoint page_trace (self : BlueskyClient.t) (endpoint actor : string)
    (cursor : json) (pages : list response) : list event :=
  match pages with
  | [] => []
  | [_] => [EvRequest (page_request self endpoint actor cursor)]
  | resp :: rest =>
      EvRequest (page_request self endpoint actor cursor) :: EvSleep
      :: page_trace self endpoint actor (page_cursor resp) rest
  end.

(** An event of a fetch from [endpoint]: a page request with some cursor,
    or a pause. *)
Definition page_event (self : BlueskyClient.t) (endpoint actor : string)
    (ev : event) : Prop :=
  match ev with
  | EvRequest r => ∃ cursor, r = page_request self endpoint actor cursor
  | EvSleep => True
  end.

(** ** Reading back what the writers wrote *)

(** The value of a hexadecimal digit. *)
Definition hex_val (c : ascii) : nat :=
  let n := nat_of_ascii c in
  if Nat.leb 97 n then (n - 87)%nat else (n - 48)%nat.

(** The first character of the body of a JSON string literal, and what
    follows it: the inverse of [escape_char]. *)
Definition unescape_head (s : string) : option (ascii * string) :=
  match s with
  | EmptyString => None
  | String c r =>
      if Ascii.eqb c backslash then
        match r with
        | String "u" (String _ (String _ (String h (String l r')))) =>
            Some (ascii_of_nat (16 * hex_val h + hex_val l), r')
        | String "b" r' => Some ("008"%char, r')
        | String "f" r' => Some ("012"%char, r')
        | String "n" r' => Some ("010"%char, r')
        | String "r" r' => Some ("013"%char, r')
        | String "t" r' => Some ("009"%char, r')
        | String d r' => Some (d, r')
        | EmptyString => None
        end
      else Some (c, r)
  end.

(** The content of a quoted CSV field, read from behind its opening quote
    up to the closing one, and what follows. *)
Fixpoint csv_read_quoted (s : string) : option (list ascii * string) :=
  match s with
  | EmptyString => None
  | String c r =>
      if Ascii.eqb c dquote then
        match r with
        | String d r' =>
            if Ascii.eqb d dquote
            then match csv_read_quoted r' with
                 | Some (cs, t) => Some (dquote :: cs, t)
                 | None => None
                 end
            else Some ([], r)
        | EmptyString => Some ([], EmptyString)
        end
      else match csv_read_quoted r with
           | Some (cs, t) => Some (c :: cs, t)
           | None => None
           end
  end.

(** An unquoted CSV field, read up to the next special character. *)
Fixpoint csv_read_plain (s : string) : list ascii * string :=
  match s with
  | EmptyString => ([], EmptyString)
  | String c r =>
      if csv_special c then ([], s)
      else let (cs, t) := csv_read_plain r in (c :: cs, t)
  end.

(** The first field of a CSV record and what follows it: the inverse of
    [csv_field]. *)
Definition csv_read_field (s : string) : option (list ascii * string) :=
  match s with
  | EmptyString => Some ([], EmptyString)
  | String c r =>
      if Ascii.eqb c dquote then csv_read_quoted r else Some (csv_read_plain s)
  end.

(** What can follow a field in a record: nothing, a delimiter or the line
    terminator. *)
Definition csv_field_end (t : string) : Prop :=
  match t with
  | EmptyString => True
  | String c _ => csv_special c = true ∧ c ≠ dquote
  end.

(** The fields of the first record of a CSV text, up to its line
    terminator, and what follows the record.  [fuel] bounds the number of
    fields. *)
Fixpoint csv_read_record (fuel : nat) (s : string) : option (list string * string) :=
  match fuel with
  | O => None
  | S fuel' =>
      match csv_read_field s with
      | Some (cs, t) =>
          let field := string_of_list_ascii cs in
          match t with
          | String c t' =>
              if Ascii.eqb c ","%char then
                match csv_read_record fuel' t' with
                | Some (fields, u) => Some (field :: fields, u)
                | None => None
                end
              else if Ascii.eqb c CR then
                match t' with
                | String d u => if Ascii.eqb d LF then Some ([field], u) else None
                | EmptyString => None
                end
              else None
          | EmptyString => None
          end
      | None => None
      end
  end.

(** The records of a CSV text, one after the other, to its end. *)
Fixpoint csv_read_records (fuel : nat) (s : string) : option (list (list string)) :=
  match s with
  | EmptyString => Some []
  | String _ _ =>
      match fuel with
      | O => None
      | S fuel' =>
          match csv_read_record (String.length s) s with
          | Some (fields, t) =>
              match csv_read_records fuel' t with
              | Some rows => Some (fields :: rows)
              | None => None
              end
          | None => None
          end
      end
  end.

(** Reading a CSV file the way it was written: every record is closed by
    the line terminator, and a text of [n] characters has no more than [n]
    records, nor a record of more than [n] fields. *)
Definition csv_read (s : string) : option (list (list string)) :=
  csv_read_records (String.length s) s.

(** ** Reading JSON text *)

(** JSON white space. *)
Definition is_ws (c : ascii) : bool :=
  let n := nat_of_ascii c in
  Nat.eqb n 32 || Nat.eqb n 10 || Nat.eqb n 13 || Nat.eqb n 9.

Fixpoint skip_ws (s : string) : string :=
  match s with
  | String c r => if is_ws c then skip_ws r else s
  | EmptyString => s
  end.

Definition is_digit (c : ascii) : bool :=
  let n := nat_of_ascii c in Nat.leb 48 n && Nat.leb n 57.

(** The longest run of digits a text starts with, and what follows. *)
Fixpoint read_digits (s : string) : string * string :=
  match s with
  | String c r =>
      if is_digit c then let (ds, t) := read_digits r in (String c ds, t)
      else (EmptyString, s)
  | EmptyString => (EmptyString, EmptyString)
  end.

(** An integer: a sign or none, then digits. *)
Definition read_int (s : string) : option (Z * string) :=
  let (tok, t) :=
    match s with
    | String c r =>
        if Ascii.eqb c "-"%char
        then let (ds, t) := read_digits r in (String c ds, t)
        else read_digits s
    | EmptyString => (EmptyString, EmptyString)
    end in
  match NilZero.int_of_string tok with
  | Some d => Some (Z.of_int d, t)
  | None => None
  end.

(** The body of a string literal, read from behind its opening quote up to
    the closing one, and what follows. *)
Fixpoint read_string (fuel : nat) (s : string) : option (list ascii * string) :=
  match fuel with
  | O => None
  | S fuel' =>
      match s with
      | String c r =>
          if Ascii.eqb c dquote then Some ([], r)
          else
            match unescape_head s with
            | Some (a, t) =>
                match read_string fuel' t with
                | Some (cs, u) => Some (a :: cs, u)
                | None => None
                end
            | None => None
            end
      | EmptyString => None
      end
  end.

(** The text starts with [p]: what follows it. *)
Fixpoint after (p s : string) : option string :=
  match p, s with
  | EmptyString, _ => Some s
  | String a p', String b s' => if Ascii.eqb a b then after p' s' else None
  | String _ _, EmptyString => None
  end.

(** A value, the elements of an array up to its closing bracket, and the
    members of an object up to its closing brace; white space is skipped
    wherever JSON allows it.  [fuel] bounds the depth of the recursion. *)
Fixpoint read_value (fuel : nat) (s : string) : option (json * string) :=
  match fuel with
  | O => None
  | S fuel' =>
      match skip_ws s with
      | String c r =>
          if Ascii.eqb c dquote then
            match read_string (String.length r) r with
            | Some (cs, t) => Some (JStr (string_of_list_ascii cs), t)
            | None => None
            end
          else if Ascii.eqb c "["%char then
            match skip_ws r with
            | String c' t =>
                if Ascii.eqb c' "]"%char then Some (JArr [], t)
                else match read_elems fuel' r with
                     | Some (items, u) => Some (JArr items, u)
                     | None => None
                     end
            | EmptyString => None
            end
          else if Ascii.eqb c "{"%char then
            match skip_ws r with
            | String c' t =>
                if Ascii.eqb c' "}"%char then Some (JObj [], t)
                else match read_members fuel' r with
                     | Some (fields, u) => Some (JObj fields, u)
                     | None => None
                     end
            | EmptyString => None
            end
          else if Ascii.eqb c "n"%char then
            match after "ull" r with Some t => Some (JNull, t) | None => None end
          else if Ascii.eqb c "t"%char then
            match after "rue" r with Some t => Some (JBool true, t) | None => None end
          else if Ascii.eqb c "f"%char then
            match after "alse" r with Some t => Some (JBool false, t) | None => None end
          else
            match read_int (String c r) with
            | Some (z, t) => Some (JInt z, t)
            | None => None
            end
      | EmptyString => None
      end
  end
with read_elems (fuel : nat) (s : string) : option (list json * string) :=
  match fuel with
  | O => None
  | S fuel' =>
      match read_value fuel' s with
      | Some (v, t) =>
          match skip_ws t with
          | String c t' =>
              if Ascii.eqb c ","%char then
                match read_elems fuel' t' with
                | Some (vs, u) => Some (v :: vs, u)
                | None => None
                end
              else if Ascii.eqb c "]"%char then Some ([v], t')
              else None
          | EmptyString => None
          end
      | None => None
      end
  end
with read_members (fuel : nat) (s : string)
  : option (list (string * json) * string) :=
  match fuel with
  | O => None
  | S fuel' =>
      match skip_ws s with
      | String q r =>
          if Ascii.eqb q dquote then
            match read_string (String.length r) r with
            | Some (k, t) =>
                match skip_ws t with
                | String c t' =>
                    if Ascii.eqb c ":"%char then
                      match read_value fuel' t' with
                      | Some (v, u) =>
                          match skip_ws u with
                          | String c' u' =>
                              if Ascii.eqb c' ","%char then
                                match read_members fuel' u' with
                                | Some (kvs, x) =>
                                    Some ((string_of_list_ascii k, v) :: kvs, x)
                                | None => None
                                end
                              else if Ascii.eqb c' "}"%char
                              then Some ([(string_of_list_ascii k, v)], u')
                              else None
                          | EmptyString => None
                          end
                      | None => None
                      end
                    else None
                | EmptyString => None
                end
            | None => None
            end
          else None
      | EmptyString => None
      end
  end.

(** The value a JSON text was written for: the inverse of [json_dumps].
    On such a text it reads what [json.loads] reads, the members of an
    object kept as the list they are written as.  Numbers that are not
    integers and the escapes that [json.dumps] never writes are outside
    it. *)
Definition read_json (s : string) : option json :=
  match read_value (String.length s) s with
  | Some (v, t) => match skip_ws t with EmptyString => Some v | _ => None end
  | None => None
  end.

(** The elements after the first one, and the members after the first
    one, as [dumps_at] writes them. *)
Fixpoint dumps_more (level : nat) (l : list json) : string :=
  match l with
  | [] => ""
  | y :: l' =>
      "," +:+ newline_indent level +:+ dumps_at level y +:+ dumps_more level l'
  end.

Fixpoint dumps_more_members (level : nat) (l : list (string * json)) : string :=
  match l with
  | [] => ""
  | (k, y) :: l' =>
      "," +:+ newline_indent level +:+ encode_basestring k +:+ ": "
      +:+ dumps_at level y +:+ dumps_more_members level l'
  end.

(** The number of values in a value, a bound for the depth of the reader. *)
Fixpoint json_size (v : json) : nat :=
  match v with
  | JArr items =>
      S ((fix sum (l : list json) : nat :=
            match l with [] => O | x :: l' => S (json_size x + sum l') end) items)
  | JObj fields =>
      S ((fix sum (l : list (string * json)) : nat :=
            match l with [] => O | (_, x) :: l' => S (json_size x + sum l') end) fields)
  | _ => 1
  end.

(** What can follow a value in a text: no digit. *)
Definition value_end (t : string) : Prop :=
  match t with
  | String c _ => is_digit c = false
  | EmptyString => True
  end.

Definition json_sizes (l : list json) : nat :=
  fold_right (λ x n, S (json_size x + n)) O l.

Definition json_member_sizes (l : list (string * json)) : nat :=
  fold_right (λ kv n, S (json_size kv.2 + n)) O l.

(** A value that is read back from its text, whatever the indentation and
    whatever follows. *)
Definition read_back (v : json) : Prop :=
  ∀ level fuel t,
    (json_size v ≤ fuel)%nat → value_end t →
    read_value fuel (dumps_at level v +:+ t) = Some (v, t).

(** ** How a run ends *)

(** The call does not end in [SystemExit]. *)
Definition no_exit {A} (o : outcome A) : Prop :=
  ∀ code, o ≠ Raised (SystemExit code).

(** The text an export format writes for a graph. *)
Definition export_text (fmt : export_format) (graph : SocialGraph.t) : string :=
  match fmt with
  | ExportJson => json_dumps (export_json_data graph)
  | ExportCsv => export_csv_text graph
  end.

(** * Properties *)

(** Membership of an identifier in a set built from a list of entries. *)
Ltac decide_did :=
  rewrite ?elem_of_list_to_set; simpl;
  rewrite ?elem_of_cons, ?elem_of_nil; intuition congruence.

(** ** The loop of the paginator *)

(** One iteration, spelled out on the world. *)
Lemma paginate_loop_step fuel self endpoint actor key entries cursor page w :
  paginate_loop (S fuel) self endpoint actor key entries cursor page w =
  let tr := trace w ++ [EvRequest (page_request self endpoint actor cursor)] in
  match script w with
  | [] => (Starved, mk_world [] tr (files w))
  | resp :: rest =>
      match page_result key entries resp with
      | Returned (entries', cursor') =>
          if truthy cursor'
          then paginate_loop fuel self endpoint actor key entries' cursor' (S page)
                 (mk_world rest (tr ++ [EvSleep]) (files w))
          else (Returned entries', mk_world rest tr (files w))
      | Raised e => (Raised e, mk_world rest tr (files w))
      | Starved => (Starved, mk_world rest tr (files w))
      | Untyped => (Untyped, mk_world rest tr (files w))
      end
  end.
Proof.
  destruct w as [scr tr fs]; simpl.
  unfold mbind, M_bind, session_get, send, log, receive, lift; simpl.
  destruct scr as [|resp rest]; simpl; [done|].
  unfold page_result.
  destruct (raise_for_status resp) as [[]| | |]; simpl; try done.
  destruct (response_json resp) as [data| | |]; simpl; try done.
  destruct (py_get data key (JArr [])) as [v_items| | |]; simpl; try done.
  destruct (py_iter v_items) as [items| | |]; simpl; try done.
  destruct (append_items entries items) as [entries'| | |]; simpl; try done.
  destruct (py_get data "cursor" JNull) as [cursor'| | |]; simpl; try done.
  destruct (truthy cursor'); simpl; done.
Qed.

(** The inner loop only appends: what it returns is the accumulator
    followed by the entries of the items. *)
Lemma append_items_acc entries items :
  append_items entries items =
  obind (append_items [] items) (λ es, Returned (entries ++ es)).
Proof.
  revert entries; induction items as [|item rest IH]; intros entries; simpl.
  - by rewrite app_nil_r.
  - destruct (entry_of_item item) as [e| | |]; simpl; try done.
    rewrite IH, (IH [e]).
    destruct (append_items [] rest) as [es| | |]; simpl; try done.
    by rewrite <- app_assoc.
Qed.

Lemma append_items_length items es :
  append_items [] items = Returned es → length es = length items.
Proof.
  revert es; induction items as [|item rest IH]; intros es; simpl.
  - by intros [= <-].
  - destruct (entry_of_item item) as [e| | |]; simpl; try done.
    rewrite append_items_acc.
    destruct (append_items [] rest) as [es'| | |] eqn:E; simpl; try done.
    intros [= <-]; simpl. by rewrite (IH es').
Qed.

(** One page with an accumulator is the page alone, put behind it. *)
Lemma page_result_acc key entries resp :
  page_result key entries resp =
  obind (page_result key [] resp) (λ r, Returned (entries ++ r.1, r.2)).
Proof.
  unfold page_result.
  destruct (raise_for_status resp) as [[]| | |]; simpl; try done.
  destruct (response_json resp) as [data| | |]; simpl; try done.
  destruct (py_get data key (JArr [])) as [v_items| | |]; simpl; try done.
  destruct (py_iter v_items) as [items| | |]; simpl; try done.
  rewrite append_items_acc.
  destruct (append_items [] items) as [es| | |]; simpl; try done.
  destruct (py_get data "cursor" JNull) as [cursor'| | |]; simpl; done.
Qed.

(** A page that is processed gives as many entries as it has items, and
    its cursor. *)
Lemma page_result_returned key resp es cursor' :
  page_result key [] resp = Returned (es, cursor') →
  length es = item_count key resp ∧ cursor' = page_cursor resp.
Proof.
  unfold page_result, item_count, page_cursor, response_json.
  destruct (raise_for_status resp) as [[]| | |]; simpl; try done.
  destruct (body resp) as [data|]; simpl; try done.
  destruct data as [| | | | |fields]; simpl; try done.
  destruct (py_iter _) as [items| | |]; simpl; try done.
  destruct (append_items [] items) as [es'| | |] eqn:E; simpl; try done.
  intros [= <- <-]. split; [by apply append_items_length | done].
Qed.

Lemma page_ok_result key entries resp :
  page_ok key resp = true →
  ∃ es, page_result key entries resp = Returned (entries ++ es, page_cursor resp)
        ∧ length es = item_count key resp.
Proof.
  unfold page_ok. rewrite (page_result_acc key entries).
  destruct (page_result key [] resp) as [[es c]| | |] eqn:E; try done.
  intros _. destruct (page_result_returned _ _ _ _ E) as [Hlen ->].
  by exists es.
Qed.

Lemma page_result_ok key entries resp r :
  page_result key entries resp = Returned r →
  page_ok key resp = true ∧ r.2 = page_cursor resp
  ∧ length r.1 = (length entries + item_count key resp)%nat.
Proof.
  rewrite page_result_acc. unfold page_ok.
  destruct (page_result key [] resp) as [[es c]| | |] eqn:E; try done.
  simpl. intros [= <-]; simpl.
  destruct (page_result_returned _ _ _ _ E) as [Hlen ->].
  by rewrite length_app, Hlen.
Qed.

Section paginate.
Variables (self : BlueskyClient.t) (endpoint actor key : string).

Local Abbreviation loop := (λ fuel, paginate_loop fuel self endpoint actor key).

(** More fuel than responses is as good as any larger amount. *)
Lemma paginate_loop_fuel fuel1 fuel2 entries cursor page w :
  (length (script w) < fuel1)%nat → (length (script w) < fuel2)%nat →
  loop fuel1 entries cursor page w = loop fuel2 entries cursor page w.
Proof.
  destruct w as [scr tr fs]; simpl.
  revert fuel1 fuel2 entries cursor page tr.
  induction scr as [|resp rest IH]; intros fuel1 fuel2 entries cursor page tr H1 H2;
    (destruct fuel1 as [|fuel1]; [lia|]); (destruct fuel2 as [|fuel2]; [lia|]);
    rewrite !paginate_loop_step; simpl; [done|].
  destruct (page_result key entries resp) as [[es c]| | |]; try done.
  destruct (truthy c); [|done].
  apply IH; simpl in *; lia.
Qed.

(** Whatever the loop does, it only adds page requests and pauses to the
    trace, and leaves the files alone. *)
Lemma paginate_loop_trace fuel entries cursor page w :
  ∃ evs, trace (loop fuel entries cursor page w).2 = trace w ++ evs
    ∧ Forall (λ ev, match ev with
                    | EvRequest r =>
                        ∃ c, r = page_request self endpoint actor c
                    | EvSleep => True
                    end) evs
    ∧ files (loop fuel entries cursor page w).2 = files w.
Proof.
  revert entries cursor page w.
  induction fuel as [|fuel IH]; intros entries cursor page w.
  { exists []. simpl. by rewrite app_nil_r. }
  rewrite paginate_loop_step; simpl.
  assert (Hreq : Forall (λ ev, match ev with
                    | EvRequest r => ∃ c, r = page_request self endpoint actor c
                    | EvSleep => True end)
                   [EvRequest (page_request self endpoint actor cursor)]).
  { repeat constructor. by exists cursor. }
  destruct (script w) as [|resp rest]; simpl.
  { by eexists. }
  destruct (page_result key entries resp) as [[es c]| | |]; simpl;
    try by eexists.
  destruct (truthy c); simpl; [|by eexists].
  edestruct IH as (evs & -> & Hevs & ->); simpl.
  eexists. rewrite <- !app_assoc. split; [done|]. split; [|done].
  apply Forall_app; split; [done|]. by constructor.
Qed.

(** When the loop returns, it has fetched a run of pages that let it go
    on and then a page with a falsy cursor; it holds one entry per item
    of these pages, has sent one request per page and paused between
    two pages. *)
Lemma paginate_loop_returned fuel entries cursor page w es w' :
  loop fuel entries cursor page w = (Returned es, w') →
  ∃ pre r evs,
    script w = pre ++ r :: script w'
    ∧ Forall (more_pages key) pre
    ∧ page_ok key r = true ∧ last_page r = true
    ∧ length es
      = (length entries + sum_list (item_count key <$> (pre ++ [r])))%nat
    ∧ trace w' = trace w ++ evs
    ∧ length (requests_of evs) = S (length pre)
    ∧ sleeps_of evs = length pre.
Proof.
  revert entries cursor page w.
  induction fuel as [|fuel IH]; intros entries cursor page w; [done|].
  rewrite paginate_loop_step; simpl.
  destruct (script w) as [|resp rest] eqn:Hscr; [done|].
  destruct (page_result key entries resp) as [[es1 c]| | |] eqn:Hpage; try done.
  destruct (page_result_ok _ _ _ _ Hpage) as (Hok & Hc & Hlen); simpl in *.
  subst c.
  destruct (truthy (page_cursor resp)) eqn:Hcur.
  - intros Hloop. apply IH in Hloop as (pre & r & evs & H); simpl in H.
    destruct H as (-> & Hpre & Hr & Hlast & Hes & -> & Hreqs & Hsleeps).
    exists (resp :: pre), r,
      ([EvRequest (page_request self endpoint actor cursor); EvSleep] ++ evs).
    split; [done|]. split.
    { constructor; [|done]. split; [done|]. unfold last_page. by rewrite Hcur. }
    do 2 (split; [done|]). split; [simpl; unfold fmap in *; lia|].
    split; [by rewrite <- !app_assoc|].
    unfold requests_of, sleeps_of, omap in *; simpl. split; lia.
  - intros [= <- <-]; simpl.
    exists [], resp, [EvRequest (page_request self endpoint actor cursor)].
    split; [done|]. split; [constructor|]. split; [done|].
    split; [unfold last_page; by rewrite Hcur|]. simpl. split; [lia|done].
Qed.

(** With enough fuel and responses that are all processed, the loop
    returns as soon as a cursor is falsy, and starves when none is. *)
Lemma paginate_loop_complete fuel entries cursor page w :
  (length (script w) < fuel)%nat →
  Forall (λ r, page_ok key r = true) (script w) →
  (Exists (λ r, last_page r = true) (script w) →
     ∃ es w', loop fuel entries cursor page w = (Returned es, w'))
  ∧ (Forall (λ r, last_page r = false) (script w) →
     (loop fuel entries cursor page w).1 = Starved).
Proof.
  destruct w as [scr tr fs]; simpl.
  revert fuel entries cursor page tr.
  induction scr as [|resp rest IH]; intros fuel entries cursor page tr Hfuel Hok;
    (destruct fuel as [|fuel]; [lia|]); rewrite paginate_loop_step; simpl.
  { split; [by intros ?%Exists_nil|done]. }
  apply Forall_cons in Hok as [Hresp Hrest].
  destruct (page_ok_result key entries resp Hresp) as (es1 & -> & _).
  destruct (truthy (page_cursor resp)) eqn:Hcur.
  - destruct (IH fuel (entries ++ es1) (page_cursor resp) (S page)
                ((tr ++ [EvRequest (page_request self endpoint actor cursor)])
                   ++ [EvSleep])) as [IH1 IH2];
      [simpl in *; lia|done|].
    split.
    + intros [Hl|Hex]%Exists_cons; [|by apply IH1].
      unfold last_page in Hl. by rewrite Hcur in Hl.
    + intros [_ Hall]%Forall_cons. by apply IH2.
  - split; [by eauto|].
    intros [Hl _]%Forall_cons. unfold last_page in Hl. by rewrite Hcur in Hl.
Qed.
End paginate.

Lemma page_trace_cons self endpoint actor cursor resp rest :
  rest ≠ [] →
  page_trace self endpoint actor cursor (resp :: rest)
  = EvRequest (page_request self endpoint actor cursor) :: EvSleep
    :: page_trace self endpoint actor (page_cursor resp) rest.
Proof. by destruct rest. Qed.

(** The loop on a script whose first pages let it go on and whose next
    one fails. *)
Lemma paginate_loop_fails self endpoint actor key pre bad rest e :
  page_result key [] bad = Raised e →
  Forall (more_pages key) pre →
  ∀ fuel entries cursor page tr fs,
    (length pre < fuel)%nat →
    paginate_loop fuel self endpoint actor key entries cursor page
      (mk_world (pre ++ bad :: rest) tr fs)
    = (Raised e,
       mk_world rest (tr ++ page_trace self endpoint actor cursor (pre ++ [bad])) fs).
Proof.
  intros Hbad Hpre.
  induction Hpre as [|r pre [Hok Hlast] _ IH];
    intros fuel entries cursor page tr fs Hfuel;
    (destruct fuel as [|fuel]; [simpl in Hfuel; lia|]);
    rewrite paginate_loop_step; simpl.
  - rewrite page_result_acc, Hbad. done.
  - destruct (page_ok_result key entries r Hok) as (es1 & -> & _).
    unfold last_page in Hlast. apply negb_false_iff in Hlast. rewrite Hlast.
    rewrite IH by (simpl in Hfuel; lia).
    rewrite <- !app_assoc. by destruct pre.
Qed.

(** The events of a fetch do not depend on what the last page holds. *)
Lemma page_trace_last self endpoint actor cursor pre r1 r2 :
  page_trace self endpoint actor cursor (pre ++ [r1])
  = page_trace self endpoint actor cursor (pre ++ [r2]).
Proof.
  revert cursor. induction pre as [|p pre IH]; intros cursor; [done|].
  rewrite <- !app_comm_cons, !page_trace_cons by (by destruct pre).
  by rewrite IH.
Qed.

(** The loop on a script whose first pages let it go on and whose next
    one carries a falsy cursor: that page is the last one fetched. *)
Lemma paginate_loop_stops self endpoint actor key pre r rest :
  last_page r = true →
  Forall (more_pages key) pre →
  ∀ fuel entries cursor page tr fs,
    (length pre < fuel)%nat →
    paginate_loop fuel self endpoint actor key entries cursor page
      (mk_world (pre ++ r :: rest) tr fs)
    = (obind (page_result key (entries ++ concat (page_entries key <$> pre)) r)
         (λ x, Returned x.1),
       mk_world rest (tr ++ page_trace self endpoint actor cursor (pre ++ [r])) fs).
Proof.
  intros Hlast Hpre.
  induction Hpre as [|p pre [Hok Hl] _ IH];
    intros fuel entries cursor page tr fs Hfuel;
    (destruct fuel as [|fuel]; [simpl in Hfuel; lia|]);
    rewrite paginate_loop_step; simpl.
  - rewrite app_nil_r.
    destruct (page_result key entries r) as [[es c]| | |] eqn:Hpage; try done.
    destruct (page_result_ok _ _ _ _ Hpage) as (_ & Hc & _). simpl in Hc. subst c.
    unfold last_page in Hlast. by destruct (truthy (page_cursor r)).
  - rewrite page_result_acc. unfold page_ok in Hok.
    assert (Hes : page_entries key p
                  = match page_result key [] p with Returned x => x.1 | _ => [] end)
      by done.
    destruct (page_result key [] p) as [[es1 c]| | |] eqn:Hp; try done.
    destruct (page_result_returned _ _ _ _ Hp) as [_ ->]. simpl in *.
    unfold last_page in Hl. apply negb_false_iff in Hl. rewrite Hl.
    rewrite IH by lia. rewrite Hes, <- !app_assoc. by destruct pre.
Qed.

(** ** Texts and their readers *)

Lemma list_ascii_of_string_app s1 s2 :
  list_ascii_of_string (s1 +:+ s2)
  = list_ascii_of_string s1 ++ list_ascii_of_string s2.
Proof. induction s1 as [|c s1 IH]; simpl; [done|by rewrite IH]. Qed.

Lemma string_app_inv_tail s1 s2 t : s1 +:+ t = s2 +:+ t → s1 = s2.
Proof.
  intros H. apply (f_equal list_ascii_of_string) in H.
  rewrite !list_ascii_of_string_app in H. apply app_inv_tail in H.
  apply (f_equal string_of_list_ascii) in H.
  by rewrite !string_of_list_ascii_of_string in H.
Qed.

Lemma string_app_nil_r (s : string) : s +:+ "" = s.
Proof.
  induction s as [|c s IH]; [done|].
  change (String c (s +:+ "") = String c s). by rewrite IH.
Qed.

Lemma string_concat_cons (x : string) (xs : list string) :
  String.concat "" (x :: xs) = x +:+ String.concat "" xs.
Proof. destruct xs; simpl; [by rewrite string_app_nil_r|done]. Qed.

Lemma string_app_cons c (s t : string) : String c s +:+ t = String c (s +:+ t).
Proof. reflexivity. Qed.

Lemma string_app_assoc (s1 s2 s3 : string) :
  (s1 +:+ s2) +:+ s3 = s1 +:+ (s2 +:+ s3).
Proof.
  induction s1 as [|c s1 IH]; [done|].
  by rewrite !string_app_cons, IH.
Qed.

Lemma string_app_inv_head (s t1 t2 : string) : s +:+ t1 = s +:+ t2 → t1 = t2.
Proof.
  induction s as [|c s IH]; [done|].
  rewrite !string_app_cons. intros [= H]. auto.
Qed.

Lemma string_concat_cons2 (sep x y : string) (l : list string) :
  String.concat sep (x :: y :: l) = x +:+ sep +:+ String.concat sep (y :: l).
Proof. reflexivity. Qed.

(** An escaped character can be read back, whatever follows it. *)
Lemma unescape_escape c r : unescape_head (escape_char c +:+ r) = Some (c, r).
Proof. destruct c as [[] [] [] [] [] [] [] []]; reflexivity. Qed.

Lemma escape_concat_inj (l1 l2 : list ascii) :
  String.concat "" (escape_char <$> l1) = String.concat "" (escape_char <$> l2) →
  l1 = l2.
Proof.
  revert l2. induction l1 as [|c1 l1 IH]; intros [|c2 l2];
    rewrite ?fmap_cons, ?string_concat_cons; intros H;
    apply (f_equal unescape_head) in H; rewrite ?unescape_escape in H;
    try done.
  injection H as -> H. f_equal. by apply IH.
Qed.

Lemma escape_char_no_control c :
  forallb (λ a, Nat.leb 32 (nat_of_ascii a)) (list_ascii_of_string (escape_char c))
  = true.
Proof. destruct c as [[] [] [] [] [] [] [] []]; reflexivity. Qed.

Lemma csv_read_quoted_written cs t :
  csv_field_end t →
  csv_read_quoted
    (String.concat ""
       ((λ c, if Ascii.eqb c dquote then str dquote +:+ str dquote else str c) <$> cs)
     +:+ str dquote +:+ t)
  = Some (cs, t).
Proof.
  intros Ht. induction cs as [|c cs IH].
  - change (csv_read_quoted (String dquote t) = Some ([], t)).
    destruct t as [|d t]; [done|]. destruct Ht as [_ Hd].
    cbn. by rewrite (proj2 (Ascii.eqb_neq d dquote) Hd).
  - rewrite fmap_cons, string_concat_cons, string_app_assoc.
    destruct (Ascii.eqb c dquote) eqn:Hc.
    + apply Ascii.eqb_eq in Hc as ->.
      change (csv_read_quoted (String dquote (String dquote
                (String.concat "" ((λ c, if Ascii.eqb c dquote
                                         then str dquote +:+ str dquote else str c)
                                     <$> cs) +:+ str dquote +:+ t)))
              = Some (dquote :: cs, t)).
      cbn. by rewrite IH.
    + change (csv_read_quoted (String c
                (String.concat "" ((λ c, if Ascii.eqb c dquote
                                         then str dquote +:+ str dquote else str c)
                                     <$> cs) +:+ str dquote +:+ t))
              = Some (c :: cs, t)).
      cbn. by rewrite Hc, IH.
Qed.

Lemma csv_read_plain_written (s t : string) :
  existsb csv_special (list_ascii_of_string s) = false →
  csv_field_end t →
  csv_read_plain (s +:+ t) = (list_ascii_of_string s, t).
Proof.
  intros Hs Ht. induction s as [|c s IH].
  - change (csv_read_plain t = ([], t)).
    destruct t as [|d t]; [done|]. destruct Ht as [Hd _]. cbn. by rewrite Hd.
  - simpl in Hs. apply orb_false_iff in Hs as [Hc Hs].
    rewrite string_app_cons. cbn. by rewrite Hc, IH.
Qed.

(** A written field can be read back, whatever record it stands in. *)
Lemma csv_read_field_written (s t : string) :
  csv_field_end t →
  csv_read_field (csv_field s +:+ t) = Some (list_ascii_of_string s, t).
Proof.
  intros Ht. unfold csv_field.
  destruct (existsb csv_special (list_ascii_of_string s)) eqn:Hs.
  - rewrite string_app_assoc, string_app_assoc.
    unfold str at 1. rewrite string_app_cons.
    change ("" +:+ ?x) with x.
    cbn [csv_read_field]. rewrite Ascii.eqb_refl.
    by apply csv_read_quoted_written.
  - destruct s as [|c s].
    + change (csv_read_field t = Some ([], t)).
      destruct t as [|d t]; [done|]. destruct Ht as [Hsp Hd]. cbn.
      by rewrite (proj2 (Ascii.eqb_neq d dquote) Hd), Hsp.
    + pose proof Hs as Hs'. simpl in Hs'. apply orb_false_iff in Hs' as [Hc _].
      rewrite string_app_cons. cbn [csv_read_field].
      assert (Hq : Ascii.eqb c dquote = false).
      { apply Ascii.eqb_neq. by intros ->. }
      rewrite Hq, <- string_app_cons. f_equal.
      by apply csv_read_plain_written.
Qed.

Lemma csv_fields_inj (fs1 fs2 : list string) (t : string) :
  length fs1 = length fs2 →
  csv_field_end t →
  String.concat "," (csv_field <$> fs1) +:+ t
  = String.concat "," (csv_field <$> fs2) +:+ t →
  fs1 = fs2.
Proof.
  intros Hlen Ht. revert fs2 Hlen.
  assert (Hstr : ∀ s1 s2 : string,
            list_ascii_of_string s1 = list_ascii_of_string s2 → s1 = s2).
  { intros s1 s2 H. apply (f_equal string_of_list_ascii) in H.
    by rewrite !string_of_list_ascii_of_string in H. }
  assert (Hcomma : ∀ r : string, csv_field_end ("," +:+ r)).
  { intros r. split; [reflexivity|discriminate]. }
  induction fs1 as [|f1 fs1 IH]; intros [|f2 fs2] Hlen H; try done.
  destruct fs1 as [|g1 fs1], fs2 as [|g2 fs2]; try done.
  - change (csv_field f1 +:+ t = csv_field f2 +:+ t) in H.
    apply (f_equal csv_read_field) in H.
    rewrite !csv_read_field_written in H by done.
    injection H as H. f_equal. by apply Hstr.
  - rewrite !fmap_cons, !string_concat_cons2, !string_app_assoc in H.
    apply (f_equal csv_read_field) in H.
    rewrite !csv_read_field_written in H by apply Hcomma.
    injection H as Hf H. apply string_app_inv_head in H.
    f_equal; [by apply Hstr|].
    apply IH; [simpl in *; lia|]. by rewrite !fmap_cons.
Qed.

Lemma string_length_app (s t : string) :
  String.length (s +:+ t) = (String.length s + String.length t)%nat.
Proof. induction s as [|c s IH]; simpl; [done|by rewrite IH]. Qed.

Lemma string_of_list_ascii_inj (s : string) :
  string_of_list_ascii (list_ascii_of_string s) = s.
Proof. apply string_of_list_ascii_of_string. Qed.

(** A record has fewer fields than characters. *)
Lemma csv_fields_length (fs : list string) :
  (length fs ≤ S (String.length (String.concat "," (csv_field <$> fs))))%nat.
Proof.
  induction fs as [|f [|g fs] IH]; [simpl; lia..|].
  rewrite !fmap_cons, string_concat_cons2, !string_length_app.
  rewrite fmap_cons in IH. simpl in *. lia.
Qed.

Lemma csv_writerow_length (fs : list string) :
  (length fs < String.length (csv_writerow fs)
   ∧ 2 ≤ String.length (csv_writerow fs))%nat.
Proof.
  unfold csv_writerow. rewrite !string_length_app. simpl.
  pose proof (csv_fields_length fs). lia.
Qed.

(** A written record can be read back, whatever follows it. *)
Lemma csv_read_record_written (fs : list string) (t : string) (fuel : nat) :
  fs ≠ [] → (length fs ≤ fuel)%nat →
  csv_read_record fuel (csv_writerow fs +:+ t) = Some (fs, t).
Proof.
  unfold csv_writerow. revert fuel.
  induction fs as [|f fs IH]; intros fuel Hne Hfuel; [done|].
  destruct fuel as [|fuel]; [simpl in Hfuel; lia|].
  destruct fs as [|g fs].
  - change (String.concat "," (csv_field <$> [f])) with (csv_field f).
    rewrite !string_app_assoc. cbn [csv_read_record].
    rewrite csv_read_field_written by (split; [reflexivity|discriminate]).
    by rewrite string_of_list_ascii_inj.
  - rewrite !fmap_cons, string_concat_cons2, !string_app_assoc.
    cbn [csv_read_record].
    rewrite csv_read_field_written by (split; [reflexivity|discriminate]).
    rewrite string_of_list_ascii_inj.
    change ("," +:+ ?x) with (String ","%char x). cbn [Ascii.eqb Bool.eqb].
    specialize (IH fuel). rewrite fmap_cons, !string_app_assoc in IH.
    rewrite IH; [done|done|simpl in *; lia].
Qed.

(** So can a whole text of records. *)
Lemma csv_read_records_written (rows : list (list string)) (fuel : nat) :
  Forall (λ fs, fs ≠ []) rows → (length rows ≤ fuel)%nat →
  csv_read_records fuel (String.concat "" (csv_writerow <$> rows)) = Some rows.
Proof.
  intros Hrows. revert fuel.
  induction Hrows as [|fs rows Hne _ IH]; intros fuel Hfuel; [by destruct fuel|].
  rewrite fmap_cons, string_concat_cons.
  destruct fuel as [|fuel]; [simpl in Hfuel; lia|].
  pose proof (csv_writerow_length fs) as [Hlen1 Hlen2].
  destruct (csv_writerow fs +:+ String.concat "" (csv_writerow <$> rows))
    as [|c r] eqn:Htext.
  { apply (f_equal String.length) in Htext.
    rewrite string_length_app in Htext. simpl in Htext. lia. }
  cbn [csv_read_records]. rewrite <- Htext.
  rewrite csv_read_record_written; [|done|rewrite string_length_app; lia].
  rewrite IH; [done|simpl in Hfuel; lia].
Qed.

Lemma csv_text_length (rows : list (list string)) :
  (length rows ≤ String.length (String.concat "" (csv_writerow <$> rows)))%nat.
Proof.
  induction rows as [|fs rows IH]; [done|].
  rewrite fmap_cons, string_concat_cons, string_length_app.
  pose proof (csv_writerow_length fs). simpl. lia.
Qed.

Lemma csv_read_written (rows : list (list string)) :
  Forall (λ fs, fs ≠ []) rows →
  csv_read (String.concat "" (csv_writerow <$> rows)) = Some rows.
Proof.
  intros Hrows. apply csv_read_records_written; [done|apply csv_text_length].
Qed.

(** ** JSON text, read back *)

(** Induction on a JSON value, with the elements and the members. *)
Lemma json_ind' (P : json → Prop) :
  P JNull → (∀ b, P (JBool b)) → (∀ z, P (JInt z)) → (∀ s, P (JStr s)) →
  (∀ items, Forall P items → P (JArr items)) →
  (∀ fields, Forall (λ kv, P kv.2) fields → P (JObj fields)) →
  ∀ v, P v.
Proof.
  intros Hnull Hbool Hint Hstr Harr Hobj.
  fix IH 1. intros v. destruct v as [| b | z | s | items | fields].
  - exact Hnull.
  - apply Hbool.
  - apply Hint.
  - apply Hstr.
  - apply Harr.
    exact ((fix go (l : list json) : Forall P l :=
              match l with
              | [] => @List.Forall_nil _ P
              | x :: l' => @List.Forall_cons _ P x l' (IH x) (go l')
              end) items).
  - apply Hobj.
    exact ((fix go (l : list (string * json)) : Forall (λ kv, P kv.2) l :=
              match l with
              | [] => @List.Forall_nil _ _
              | kv :: l' => @List.Forall_cons _ _ kv l' (IH kv.2) (go l')
              end) fields).
Qed.

Lemma dumps_at_arr level x xs :
  dumps_at level (JArr (x :: xs))
  = "[" +:+ newline_indent (S level) +:+ dumps_at (S level) x
    +:+ dumps_more (S level) xs +:+ newline_indent level +:+ "]".
Proof.
  cbn [dumps_at]. do 3 f_equal. f_equal.
  induction xs as [|y xs IH]; [done|]. cbn [dumps_more]. by rewrite IH.
Qed.

Lemma dumps_at_obj level k x kvs :
  dumps_at level (JObj ((k, x) :: kvs))
  = "{" +:+ newline_indent (S level) +:+ encode_basestring k +:+ ": "
    +:+ dumps_at (S level) x +:+ dumps_more_members (S level) kvs
    +:+ newline_indent level +:+ "}".
Proof.
  cbn [dumps_at]. do 5 f_equal. f_equal.
  induction kvs as [|[k' y] kvs IH]; [done|]. cbn [dumps_more_members]. by rewrite IH.
Qed.

Lemma skip_ws_idem s : skip_ws (skip_ws s) = skip_ws s.
Proof.
  induction s as [|c s IH]; [done|]. simpl.
  destruct (is_ws c) eqn:E; [done|]. simpl. by rewrite E.
Qed.

Lemma read_value_skip fuel s : read_value fuel (skip_ws s) = read_value fuel s.
Proof. destruct fuel; [done|]. cbn [read_value]. by rewrite skip_ws_idem. Qed.

Lemma skip_ws_spaces n t : skip_ws (spaces n +:+ t) = skip_ws t.
Proof. induction n as [|n IH]; [done|]. exact IH. Qed.

Lemma skip_ws_newline_indent level t :
  skip_ws (newline_indent level +:+ t) = skip_ws t.
Proof.
  unfold newline_indent. rewrite string_app_assoc.
  exact (skip_ws_spaces (2 * level) t).
Qed.

Lemma read_value_ws fuel level t :
  read_value fuel (newline_indent level +:+ t) = read_value fuel t.
Proof.
  by rewrite <- read_value_skip, skip_ws_newline_indent, read_value_skip.
Qed.

(** String literals. *)
Lemma escape_char_head c t :
  ∃ h r, escape_char c +:+ t = String h r ∧ Ascii.eqb h dquote = false.
Proof. destruct c as [[] [] [] [] [] [] [] []]; by eexists _, _. Qed.

Lemma escape_length (cs : list ascii) :
  (length cs ≤ String.length (String.concat "" (escape_char <$> cs)))%nat.
Proof.
  induction cs as [|c cs IH]; [done|].
  rewrite fmap_cons, string_concat_cons, string_length_app.
  destruct (escape_char_head c "") as (h & r & Heq & _).
  rewrite string_app_nil_r in Heq. rewrite Heq. simpl. lia.
Qed.

Lemma read_string_written cs t fuel :
  (length cs < fuel)%nat →
  read_string fuel (String.concat "" (escape_char <$> cs) +:+ str dquote +:+ t)
  = Some (cs, t).
Proof.
  revert fuel. induction cs as [|c cs IH]; intros fuel Hfuel;
    (destruct fuel as [|fuel]; [simpl in Hfuel; lia|]).
  - done.
  - rewrite fmap_cons, string_concat_cons, string_app_assoc.
    destruct (escape_char_head c
                (String.concat "" (escape_char <$> cs) +:+ str dquote +:+ t))
      as (h & r & Heq & Hh).
    rewrite Heq. cbn [read_string]. rewrite Hh, <- Heq, unescape_escape.
    rewrite IH; [done|simpl in Hfuel; lia].
Qed.

(** Integers. *)
Lemma read_digits_uint d t :
  value_end t →
  read_digits (NilEmpty.string_of_uint d +:+ t) = (NilEmpty.string_of_uint d, t).
Proof.
  intros Ht. induction d as [|d IH|d IH|d IH|d IH|d IH|d IH|d IH|d IH|d IH|d IH];
    cbn [NilEmpty.string_of_uint];
    rewrite ?string_app_cons; cbn [read_digits]; rewrite ?IH; try done.
  change (read_digits t = ("", t)).
  destruct t as [|c t]; [done|]. simpl in Ht. cbn [read_digits]. by rewrite Ht.
Qed.

Lemma to_int_proper z :
  Z.to_int z ≠ Decimal.Pos Decimal.Nil ∧ Z.to_int z ≠ Decimal.Neg Decimal.Nil.
Proof.
  destruct z as [|p|p]; simpl; split; try done;
    intros [= H]; by apply DecimalPos.Unsigned.to_uint_nonnil in H.
Qed.

Lemma string_of_uint_proper u :
  u ≠ Decimal.Nil → NilZero.string_of_uint u = NilEmpty.string_of_uint u.
Proof. by destruct u. Qed.

Lemma string_of_uint_head u t :
  u ≠ Decimal.Nil →
  ∃ c r, NilEmpty.string_of_uint u +:+ t = String c r ∧ is_digit c = true.
Proof. destruct u; [done|..]; intros _; by eexists _, _. Qed.

Lemma string_of_Z_head z t :
  ∃ c r, string_of_Z z +:+ t = String c r
         ∧ (is_digit c || Ascii.eqb c "-"%char) = true.
Proof.
  unfold string_of_Z. destruct (to_int_proper z) as [Hp Hn].
  destruct (Z.to_int z) as [u|u]; cbn [NilZero.string_of_int].
  - assert (Hu : u ≠ Decimal.Nil) by (by intros ->).
    rewrite string_of_uint_proper by done.
    destruct (string_of_uint_head u t Hu) as (c & r & -> & Hc).
    exists c, r. by rewrite Hc.
  - by eexists _, _.
Qed.

Lemma read_int_written z t :
  value_end t → read_int (string_of_Z z +:+ t) = Some (z, t).
Proof.
  intros Ht. unfold string_of_Z, read_int.
  destruct (to_int_proper z) as [Hp Hn].
  pose proof (DecimalZ.of_to z) as Hz.
  pose proof (NilZero.isi (Z.to_int z) Hp Hn) as Hisi.
  destruct (Z.to_int z) as [u|u]; cbn [NilZero.string_of_int] in *.
  - assert (Hu : u ≠ Decimal.Nil) by (by intros ->).
    rewrite string_of_uint_proper in * by done.
    destruct (string_of_uint_head u t Hu) as (c & r & Heq & Hc).
    rewrite Heq.
    assert (Hminus : Ascii.eqb c "-"%char = false).
    { destruct (Ascii.eqb_spec c "-"%char) as [->|]; done. }
    rewrite Hminus, <- Heq, read_digits_uint by done.
    by rewrite Hisi, Hz.
  - assert (Hu : u ≠ Decimal.Nil) by (by intros ->).
    rewrite string_of_uint_proper in * by done.
    rewrite string_app_cons. cbn [Ascii.eqb Bool.eqb].
    rewrite read_digits_uint by done. by rewrite Hisi, Hz.
Qed.

Lemma read_value_number fuel c r :
  (is_digit c || Ascii.eqb c "-"%char) = true →
  read_value (S fuel) (String c r)
  = match read_int (String c r) with
    | Some (z, t) => Some (JInt z, t)
    | None => None
    end.
Proof. destruct c as [[] [] [] [] [] [] [] []]; try discriminate; reflexivity. Qed.

Lemma json_size_arr items : json_size (JArr items) = S (json_sizes items).
Proof. reflexivity. Qed.

Lemma json_size_obj fields :
  json_size (JObj fields) = S (json_member_sizes fields).
Proof.
  cbn [json_size]. f_equal. induction fields as [|[k x] fields IH]; [done|].
  change (json_member_sizes ((k, x) :: fields))
    with (S (json_size x + json_member_sizes fields)).
  by rewrite <- IH.
Qed.

Lemma number_start_plain c :
  (is_digit c || Ascii.eqb c "-"%char) = true →
  is_ws c = false ∧ Ascii.eqb c "]"%char = false ∧ Ascii.eqb c "}"%char = false.
Proof. destruct c as [[] [] [] [] [] [] [] []]; try discriminate; done. Qed.

(** A written value starts with a character of its own. *)
Lemma dumps_at_head level v t :
  ∃ h r, dumps_at level v +:+ t = String h r
         ∧ is_ws h = false
         ∧ Ascii.eqb h "]"%char = false ∧ Ascii.eqb h "}"%char = false.
Proof.
  destruct v as [| [] | z | s | [|x xs] | [|[k x] kvs]]; try (by eexists _, _).
  - cbn [dumps_at]. destruct (string_of_Z_head z t) as (c & r & Heq & Hc).
    exists c, r. split; [done|]. by apply number_start_plain.
Qed.

Lemma skip_ws_value level level' v t :
  ∃ h r, skip_ws (newline_indent level' +:+ dumps_at level v +:+ t) = String h r
         ∧ Ascii.eqb h "]"%char = false ∧ Ascii.eqb h "}"%char = false.
Proof.
  rewrite skip_ws_newline_indent.
  destruct (dumps_at_head level v t) as (h & r & -> & Hws & Hb & Hc).
  exists h, r. cbn [skip_ws]. by rewrite Hws.
Qed.

Lemma value_end_newline level t : value_end (newline_indent level +:+ t).
Proof. reflexivity. Qed.

(** One step of each reader. *)
Lemma read_value_str fuel r :
  read_value (S fuel) (String dquote r)
  = match read_string (String.length r) r with
    | Some (cs, t) => Some (JStr (string_of_list_ascii cs), t)
    | None => None
    end.
Proof. reflexivity. Qed.

Lemma read_value_arr fuel u :
  read_value (S fuel) (String "["%char u)
  = match skip_ws u with
    | String c' t =>
        if Ascii.eqb c' "]"%char then Some (JArr [], t)
        else match read_elems fuel u with
             | Some (items, x) => Some (JArr items, x)
             | None => None
             end
    | EmptyString => None
    end.
Proof. reflexivity. Qed.

Lemma read_value_obj fuel u :
  read_value (S fuel) (String "{"%char u)
  = match skip_ws u with
    | String c' t =>
        if Ascii.eqb c' "}"%char then Some (JObj [], t)
        else match read_members fuel u with
             | Some (fields, x) => Some (JObj fields, x)
             | None => None
             end
    | EmptyString => None
    end.
Proof. reflexivity. Qed.

Lemma read_elems_step fuel s :
  read_elems (S fuel) s
  = match read_value fuel s with
    | Some (v, t) =>
        match skip_ws t with
        | String c t' =>
            if Ascii.eqb c ","%char then
              match read_elems fuel t' with
              | Some (vs, u) => Some (v :: vs, u)
              | None => None
              end
            else if Ascii.eqb c "]"%char then Some ([v], t')
            else None
        | EmptyString => None
        end
    | None => None
    end.
Proof. reflexivity. Qed.

Lemma read_members_step fuel level r :
  read_members (S fuel) (newline_indent level +:+ String dquote r)
  = match read_string (String.length r) r with
    | Some (k, t) =>
        match skip_ws t with
        | String c t' =>
            if Ascii.eqb c ":"%char then
              match read_value fuel t' with
              | Some (v, u) =>
                  match skip_ws u with
                  | String c' u' =>
                      if Ascii.eqb c' ","%char then
                        match read_members fuel u' with
                        | Some (kvs, x) =>
                            Some ((string_of_list_ascii k, v) :: kvs, x)
                        | None => None
                        end
                      else if Ascii.eqb c' "}"%char
                      then Some ([(string_of_list_ascii k, v)], u')
                      else None
                  | EmptyString => None
                  end
              | None => None
              end
            else None
        | EmptyString => None
        end
    | None => None
    end.
Proof.
  cbn [read_members]. rewrite skip_ws_newline_indent. reflexivity.
Qed.

Lemma read_key (k t : string) :
  ∃ r, encode_basestring k +:+ t = String dquote r
       ∧ read_string (String.length r) r = Some (list_ascii_of_string k, t).
Proof.
  unfold encode_basestring. rewrite !string_app_assoc.
  eexists. split; [reflexivity|].
  apply read_string_written.
  rewrite !string_length_app. simpl.
  pose proof (escape_length (list_ascii_of_string k)). lia.
Qed.

(** The elements of an array, behind its opening bracket. *)
Lemma read_elems_written level level' (xs : list json) :
  ∀ x t fuel,
    Forall read_back (x :: xs) →
    (json_sizes (x :: xs) ≤ fuel)%nat →
    read_elems fuel
      (newline_indent level +:+ dumps_at level x +:+ dumps_more level xs
       +:+ newline_indent level' +:+ "]" +:+ t)
    = Some (x :: xs, t).
Proof.
  induction xs as [|y ys IH]; intros x t fuel [Hx Hxs]%Forall_cons Hfuel;
    cbn [json_sizes fold_right] in Hfuel;
    (destruct fuel as [|fuel]; [lia|]);
    rewrite read_elems_step, read_value_ws; cbn [dumps_more].
  - change (EmptyString +:+ ?u) with u.
    rewrite Hx; [|lia|apply value_end_newline].
    rewrite skip_ws_newline_indent. reflexivity.
  - rewrite !string_app_assoc.
    rewrite Hx; [|lia|reflexivity].
    change ("," +:+ ?u) with (String ","%char u).
    cbn [skip_ws]. change (is_ws ","%char) with false. cbn iota.
    change (Ascii.eqb ","%char ","%char) with true. cbn iota.
    rewrite (IH y t fuel Hxs); [done|].
    cbn [json_sizes fold_right]. lia.
Qed.

Lemma read_value_space fuel u :
  read_value fuel (String " "%char u) = read_value fuel u.
Proof.
  rewrite <- read_value_skip.
  change (skip_ws (String " "%char u)) with (skip_ws u).
  apply read_value_skip.
Qed.

(** The members of an object, behind its opening brace. *)
Lemma read_members_written level level' (kvs : list (string * json)) :
  ∀ k x t fuel,
    Forall (λ kv, read_back kv.2) ((k, x) :: kvs) →
    (json_member_sizes ((k, x) :: kvs) ≤ fuel)%nat →
    read_members fuel
      (newline_indent level +:+ encode_basestring k +:+ ": "
       +:+ dumps_at level x +:+ dumps_more_members level kvs
       +:+ newline_indent level' +:+ "}" +:+ t)
    = Some ((k, x) :: kvs, t).
Proof.
  induction kvs as [|[k' y] kvs IH]; intros k x t fuel [Hx Hkvs]%Forall_cons Hfuel;
    cbn [json_member_sizes fold_right snd] in Hfuel; cbn [snd] in Hx;
    (destruct fuel as [|fuel]; [lia|]);
    cbn [dumps_more_members].
  - change (EmptyString +:+ ?u) with u.
    destruct (read_key k (": " +:+ dumps_at level x +:+ newline_indent level'
                          +:+ "}" +:+ t)) as (r & Heq & Hread).
    rewrite Heq, read_members_step, Hread.
    change (": " +:+ ?u) with (String ":"%char (String " "%char u)).
    cbn [skip_ws]. change (is_ws ":"%char) with false. cbn iota.
    change (Ascii.eqb ":"%char ":"%char) with true. cbn iota.
    rewrite read_value_space.
    rewrite Hx; [|lia|apply value_end_newline].
    rewrite skip_ws_newline_indent, string_of_list_ascii_inj. reflexivity.
  - rewrite !string_app_assoc.
    destruct (read_key k (": " +:+ dumps_at level x +:+ "," +:+ newline_indent level
                          +:+ encode_basestring k' +:+ ": " +:+ dumps_at level y
                          +:+ dumps_more_members level kvs
                          +:+ newline_indent level' +:+ "}" +:+ t))
      as (r & Heq & Hread).
    rewrite Heq, read_members_step, Hread.
    change (": " +:+ ?u) with (String ":"%char (String " "%char u)).
    cbn [skip_ws]. change (is_ws ":"%char) with false. cbn iota.
    change (Ascii.eqb ":"%char ":"%char) with true. cbn iota.
    rewrite read_value_space.
    rewrite Hx; [|lia|reflexivity].
    change ("," +:+ ?u) with (String ","%char u).
    cbn [skip_ws]. change (is_ws ","%char) with false. cbn iota.
    change (Ascii.eqb ","%char ","%char) with true. cbn iota.
    rewrite (IH k' y t fuel Hkvs); [by rewrite string_of_list_ascii_inj|].
    cbn [json_member_sizes fold_right snd]. lia.
Qed.

(** Every value is read back from the text [dumps_at] writes for it. *)
Lemma read_value_written v : read_back v.
Proof.
  induction v as [| b | z | s | items IH | fields IH] using json_ind';
    intros level fuel t Hfuel Ht;
    (destruct fuel as [|fuel]; [simpl in Hfuel; lia|]).
  - reflexivity.
  - by destruct b.
  - cbn [dumps_at]. destruct (string_of_Z_head z t) as (c & r & Heq & Hc).
    rewrite Heq, read_value_number by done.
    by rewrite <- Heq, read_int_written.
  - cbn [dumps_at]. destruct (read_key s t) as (r & Heq & Hread).
    rewrite Heq, read_value_str, Hread. by rewrite string_of_list_ascii_inj.
  - destruct items as [|x xs]; [reflexivity|].
    rewrite json_size_arr in Hfuel.
    rewrite dumps_at_arr, !string_app_assoc.
    change ("[" +:+ ?u) with (String "["%char u). rewrite read_value_arr.
    destruct (skip_ws_value (S level) (S level) x
                (dumps_more (S level) xs +:+ newline_indent level +:+ "]" +:+ t))
      as (h & r & Hskip & Hb & _).
    rewrite Hskip, Hb.
    rewrite read_elems_written; [done|done|lia].
  - destruct fields as [|[k x] kvs]; [reflexivity|].
    rewrite json_size_obj in Hfuel.
    rewrite dumps_at_obj, !string_app_assoc.
    change ("{" +:+ ?u) with (String "{"%char u). rewrite read_value_obj.
    destruct (read_key k (": " +:+ dumps_at (S level) x
                          +:+ dumps_more_members (S level) kvs
                          +:+ newline_indent level +:+ "}" +:+ t))
      as (r & Heq & _).
    rewrite skip_ws_newline_indent, Heq. cbn [skip_ws].
    change (is_ws dquote) with false. cbn iota.
    change (Ascii.eqb dquote "}"%char) with false. cbn iota.
    rewrite <- Heq.
    rewrite read_members_written; [done|done|lia].
Qed.

Lemma newline_indent_length level : (1 ≤ String.length (newline_indent level))%nat.
Proof. unfold newline_indent. rewrite string_length_app. simpl. lia. Qed.

(** A text is no shorter than the number of values it holds. *)
Lemma dumps_at_length v :
  ∀ level, (json_size v ≤ String.length (dumps_at level v))%nat.
Proof.
  induction v as [| b | z | s | items IH | fields IH] using json_ind'; intros level.
  - simpl; lia.
  - destruct b; simpl; lia.
  - cbn [dumps_at json_size].
    destruct (string_of_Z_head z "") as (c & r & Heq & _).
    rewrite string_app_nil_r in Heq. rewrite Heq. simpl. lia.
  - cbn [dumps_at json_size]. unfold encode_basestring.
    rewrite !string_length_app. simpl. lia.
  - destruct items as [|x xs]; [simpl; lia|].
    rewrite json_size_arr, dumps_at_arr, !string_length_app.
    apply Forall_cons in IH as [Hx Hxs].
    assert (Hmore : (json_sizes xs ≤ String.length (dumps_more (S level) xs))%nat).
    { induction Hxs as [|y ys Hy _ IHys]; [done|].
      cbn [dumps_more json_sizes fold_right]. rewrite !string_length_app.
      pose proof (newline_indent_length (S level)).
      specialize (Hy (S level)). fold (json_sizes ys). simpl String.length. lia. }
    specialize (Hx (S level)).
    pose proof (newline_indent_length (S level)).
    cbn [json_sizes fold_right]. fold (json_sizes xs). simpl String.length. lia.
  - destruct fields as [|[k x] kvs]; [simpl; lia|].
    rewrite json_size_obj, dumps_at_obj, !string_length_app.
    apply Forall_cons in IH as [Hx Hkvs]. simpl in Hx.
    assert (Hmore : (json_member_sizes kvs
                     ≤ String.length (dumps_more_members (S level) kvs))%nat).
    { induction Hkvs as [|[k' y] ys Hy _ IHys]; [done|].
      cbn [dumps_more_members json_member_sizes fold_right snd].
      rewrite !string_length_app.
      pose proof (newline_indent_length (S level)).
      specialize (Hy (S level)). simpl in Hy.
      fold (json_member_sizes ys). simpl String.length. lia. }
    specialize (Hx (S level)).
    pose proof (newline_indent_length (S level)).
    cbn [json_member_sizes fold_right snd]. fold (json_member_sizes kvs).
    simpl String.length. lia.
Qed.

(** What [json_dumps] writes, [read_json] reads. *)
Lemma read_json_written v : read_json (json_dumps v) = Some v.
Proof.
  unfold read_json, json_dumps.
  pose proof (read_value_written v 0%nat (String.length (dumps_at 0 v)) ""
                (dumps_at_length v 0%nat) I) as H.
  rewrite string_app_nil_r in H. by rewrite H.
Qed.

(** ** The characters of a JSON text *)

Lemma forallb_weaken {A} (f g : A → bool) (l : list A) :
  (∀ a, f a = true → g a = true) → forallb f l = true → forallb g l = true.
Proof.
  intros Hfg. induction l as [|a l IH]; [done|]. simpl.
  intros [Ha Hl]%andb_true_iff. by rewrite (Hfg a Ha), IH.
Qed.

Lemma encode_basestring_chars (s : string) :
  forallb (λ a, Nat.leb 32 (nat_of_ascii a))
    (list_ascii_of_string (encode_basestring s)) = true.
Proof.
  unfold encode_basestring.
  rewrite !list_ascii_of_string_app, !forallb_app.
  change (forallb _ (list_ascii_of_string (str dquote))) with true.
  rewrite andb_true_r. simpl.
  induction (list_ascii_of_string s) as [|c l IH]; [done|].
  rewrite fmap_cons, string_concat_cons, list_ascii_of_string_app, forallb_app.
  by rewrite escape_char_no_control, IH.
Qed.

Lemma string_of_Z_chars (z : Z) :
  forallb (λ a, Nat.leb 32 (nat_of_ascii a)) (list_ascii_of_string (string_of_Z z))
  = true.
Proof.
  assert (Hu : ∀ u, forallb (λ a, Nat.leb 32 (nat_of_ascii a))
                      (list_ascii_of_string (NilEmpty.string_of_uint u)) = true).
  { induction u; simpl; by rewrite ?IHu. }
  assert (Hz : ∀ u, forallb (λ a, Nat.leb 32 (nat_of_ascii a))
                      (list_ascii_of_string (NilZero.string_of_uint u)) = true).
  { intros u. destruct u; try apply Hu. done. }
  unfold string_of_Z. destruct (Z.to_int z) as [u|u]; simpl; by rewrite ?Hz.
Qed.

Lemma newline_indent_chars level :
  forallb (λ a, Ascii.eqb a LF || Nat.leb 32 (nat_of_ascii a))
    (list_ascii_of_string (newline_indent level)) = true.
Proof.
  assert (Hsp : ∀ n, forallb (λ a, Ascii.eqb a LF || Nat.leb 32 (nat_of_ascii a))
                       (list_ascii_of_string (spaces n)) = true).
  { induction n as [|n IH]; [done|]. exact IH. }
  unfold newline_indent. rewrite list_ascii_of_string_app, forallb_app.
  by rewrite Hsp.
Qed.

(** Outside its string literals a JSON text has line feeds and no other
    control character. *)
Lemma dumps_at_chars v :
  ∀ level,
    forallb (λ a, Ascii.eqb a LF || Nat.leb 32 (nat_of_ascii a))
      (list_ascii_of_string (dumps_at level v)) = true.
Proof.
  assert (Hplain : ∀ l, forallb (λ a, Nat.leb 32 (nat_of_ascii a)) l = true →
            forallb (λ a, Ascii.eqb a LF || Nat.leb 32 (nat_of_ascii a)) l = true).
  { intros l. apply forallb_weaken. intros a ->. apply orb_true_r. }
  induction v as [| b | z | s | items IH | fields IH] using json_ind'; intros level.
  - done.
  - by destruct b.
  - apply Hplain, string_of_Z_chars.
  - apply Hplain, encode_basestring_chars.
  - destruct items as [|x xs]; [done|].
    apply Forall_cons in IH as [Hx Hxs].
    assert (Hmore : forallb (λ a, Ascii.eqb a LF || Nat.leb 32 (nat_of_ascii a))
                      (list_ascii_of_string (dumps_more (S level) xs)) = true).
    { induction Hxs as [|y ys Hy _ IHys]; [done|].
      cbn [dumps_more]. rewrite !list_ascii_of_string_app, !forallb_app.
      by rewrite Hy, newline_indent_chars, IHys. }
    rewrite dumps_at_arr, !list_ascii_of_string_app, !forallb_app.
    by rewrite Hx, Hmore, !newline_indent_chars.
  - destruct fields as [|[k x] kvs]; [done|].
    apply Forall_cons in IH as [Hx Hkvs]. cbn [snd] in Hx.
    assert (Hmore : forallb (λ a, Ascii.eqb a LF || Nat.leb 32 (nat_of_ascii a))
                      (list_ascii_of_string (dumps_more_members (S level) kvs))
                    = true).
    { induction Hkvs as [|[k' y] ys Hy _ IHys]; [done|]. cbn [snd] in Hy.
      cbn [dumps_more_members]. rewrite !list_ascii_of_string_app, !forallb_app.
      by rewrite Hy, newline_indent_chars,
           (Hplain _ (encode_basestring_chars k')), IHys. }
    rewrite dumps_at_obj, !list_ascii_of_string_app, !forallb_app.
    by rewrite Hx, Hmore, !newline_indent_chars,
         (Hplain _ (encode_basestring_chars k)).
Qed.

(** A few texts, read. *)
Example read_json_small :
  read_json ("{" +:+ str dquote +:+ "a" +:+ str dquote +:+ " : [ -12 ,true, "
              +:+ str dquote +:+ "x" +:+ str backslash +:+ "n" +:+ str dquote
              +:+ "], " +:+ str dquote +:+ "b" +:+ str dquote +:+ ":{} } ")
  = Some (JObj [("a", JArr [JInt (-12); JBool true; JStr ("x" +:+ str LF)]);
               ("b", JObj [])]).
Proof. by vm_compute. Qed.

(** ** The paginator *)

(** What [_paginate] does with a first response whose cursor is falsy:
    one request, that page alone, nothing else of the script touched. *)
Lemma paginate_last_page self endpoint actor key resp rest tr fs :
  last_page resp = true →
  _paginate self endpoint actor key (mk_world (resp :: rest) tr fs) =
  (obind (page_result key [] resp) (λ r, Returned r.1),
   mk_world rest (tr ++ [EvRequest (page_request self endpoint actor JNull)]) fs).
Proof.
  intros Hlast. unfold _paginate. rewrite paginate_loop_step; simpl.
  destruct (page_result key [] resp) as [[es c]| | |] eqn:Hpage; try done.
  destruct (page_result_returned _ _ _ _ Hpage) as [_ ->].
  unfold last_page in Hlast. by destruct (truthy (page_cursor resp)).
Qed.

(** C2, as the code has it.  For a script of responses that are all
    processed without failure: [_paginate] returns if and only if some
    response carries a falsy cursor (omitted, null or empty) and is left
    waiting for the service otherwise; what it returns has one entry per
    item of the pages it fetched, one request having been sent per page;
    and it returns for a script that ends in a response without a cursor. *)
Theorem paginate_length_termination self endpoint actor key w :
  Forall (λ r, page_ok key r = true) (script w) →
  ((∃ es w', _paginate self endpoint actor key w = (Returned es, w'))
     ↔ Exists (λ r, last_page r = true) (script w))
  ∧ ((_paginate self endpoint actor key w).1 = Starved
     ↔ Forall (λ r, last_page r = false) (script w))
  ∧ (∀ es w', _paginate self endpoint actor key w = (Returned es, w') →
      ∃ fetched,
        script w = fetched ++ script w'
        ∧ length es = sum_list (item_count key <$> fetched)
        ∧ length (requests_of (new_events w w')) = length fetched)
  ∧ (∀ pages r, script w = pages ++ [r] → omits_cursor r = true →
      ∃ es w', _paginate self endpoint actor key w = (Returned es, w')).
Proof.
  intros Hok. unfold _paginate.
  destruct (paginate_loop_complete self endpoint actor key
              (S (length (script w))) [] JNull 0%nat w) as [Hret Hstarve];
    [lia|done|].
  assert (Hlen : ∀ es w',
    paginate_loop (S (length (script w))) self endpoint actor key [] JNull 0%nat w
      = (Returned es, w') →
    ∃ pre r, script w = (pre ++ [r]) ++ script w'
      ∧ last_page r = true
      ∧ length es = sum_list (item_count key <$> (pre ++ [r]))
      ∧ length (requests_of (new_events w w')) = length (pre ++ [r])).
  { intros es w' H.
    apply paginate_loop_returned in H
      as (pre & r & evs & Hscr & _ & _ & Hlast & Hes & Htr & Hreqs & _).
    exists pre, r. rewrite <- app_assoc. split; [done|]. split; [done|].
    split; [done|]. unfold new_events. rewrite Htr, drop_app_length.
    rewrite length_app; simpl. lia. }
  assert (Hex : (∃ es w',
      paginate_loop (S (length (script w))) self endpoint actor key [] JNull 0%nat w
        = (Returned es, w')) ↔ Exists (λ r, last_page r = true) (script w)).
  { split; [|done].
    intros (es & w' & H). apply Hlen in H as (pre & r & -> & Hlast & _).
    rewrite <- app_assoc. apply Exists_app; right. by constructor. }
  split; [done|]. split; [|split].
  - split; [|done]. intros Hst.
    apply Forall_forall. intros r Hr.
    destruct (last_page r) eqn:Hl; [|done].
    destruct Hret as (es & w' & Heq).
    { apply Exists_exists. eauto. }
    rewrite Heq in Hst. done.
  - intros es w' H. apply Hlen in H as (pre & r & ? & ? & ? & ?). eauto.
  - intros pages r Hscr Homit. apply Hret. rewrite Hscr.
    apply Exists_app; right. constructor.
    unfold omits_cursor in Homit. unfold last_page, page_cursor.
    destruct (body r) as [[| | | | |fields]|]; try done.
    by destruct (dict_get "cursor" fields).
Qed.

Lemma paginate_length_termination_witness :
  let w := service [page_one; page_two] in
  let fetch := _paginate anonymous "app.bsky.graph.getFollowers" "alice.test"
                 "followers" in
  Forall (λ r, page_ok "followers" r = true) (script w)
  ∧ (∃ es w', fetch w = (Returned es, w'))
  ∧ (∀ es w', fetch w = (Returned es, w') →
       ∃ fetched,
         script w = fetched ++ script w'
         ∧ length es = sum_list (item_count "followers" <$> fetched)
         ∧ length (requests_of (new_events w w')) = length fetched).
Proof.
  intros w fetch.
  assert (H : Forall (λ r, page_ok "followers" r = true) [page_one; page_two])
    by (repeat constructor).
  destruct (paginate_length_termination anonymous "app.bsky.graph.getFollowers"
              "alice.test" "followers" w H) as (_ & _ & Hlen & Hend).
  split; [exact H|]. split; [|exact Hlen].
  exact (Hend [page_one] page_two eq_refl eq_refl).
Defined.

(** The two pages at work: three entries, two requests, one pause, the
    second request carrying the cursor of the first page. *)
Example paginate_two_pages :
  _paginate anonymous "app.bsky.graph.getFollowers" "alice.test" "followers"
    (service [page_one; page_two])
  = (Returned [entry "did:plc:a" "a.test"; entry "did:plc:b" "b.test";
               entry "did:plc:c" "c.test"],
     mk_world []
       [EvRequest (page_request anonymous "app.bsky.graph.getFollowers"
                     "alice.test" JNull);
        EvSleep;
        EvRequest (page_request anonymous "app.bsky.graph.getFollowers"
                     "alice.test" (JStr "p2"))] ∅).
Proof. reflexivity. Qed.

Example paginate_second_request :
  req_url (page_request anonymous "app.bsky.graph.getFollowers" "alice.test"
             (JStr "p2"))
  = "https://public.api.bsky.app/xrpc/app.bsky.graph.getFollowers"
  ∧ req_params (page_request anonymous "app.bsky.graph.getFollowers"
                  "alice.test" (JStr "p2"))
    = [("actor", JStr "alice.test"); ("limit", JInt 100); ("cursor", JStr "p2")].
Proof. split; reflexivity. Qed.

(** Termination does not need a response without a cursor member: the
    loop also ends on a response that carries one, empty. *)
Lemma paginate_stops_without_omission :
  let w := service [page_empty_cursor] in
  (∃ es w', _paginate anonymous "app.bsky.graph.getFollowers" "alice.test"
              "followers" w = (Returned es, w'))
  ∧ ¬ Exists (λ r, omits_cursor r = true) (script w).
Proof.
  split.
  - by eexists _, _.
  - intros [H|H%Exists_nil]%Exists_cons; done.
Qed.

(** No step of the decoding of a page waits for the service. *)
Lemma obind_not_starved {A B} (o : outcome A) (k : A → outcome B) :
  o ≠ Starved → (∀ a, k a ≠ Starved) → obind o k ≠ Starved.
Proof. destruct o; simpl; auto. Qed.

Lemma entry_of_item_not_starved item : entry_of_item item ≠ Starved.
Proof.
  assert (Hsub : ∀ k, py_subscript item k ≠ Starved).
  { intros k. unfold py_subscript. destruct item; try done.
    by destruct (dict_get k fields). }
  assert (Hget : ∀ k d, py_get item k d ≠ Starved)
    by (intros k d; by destruct item).
  assert (Hstr : ∀ v, as_str v ≠ Starved) by (by intros []).
  unfold entry_of_item.
  repeat (apply obind_not_starved; [done|intros ?]). done.
Qed.

Lemma append_items_not_starved entries items :
  append_items entries items ≠ Starved.
Proof.
  revert entries; induction items as [|it rest IH]; intros entries; simpl; [done|].
  apply obind_not_starved; [apply entry_of_item_not_starved|auto].
Qed.

Lemma page_result_not_starved key entries resp :
  page_result key entries resp ≠ Starved.
Proof.
  unfold page_result.
  apply obind_not_starved;
    [unfold raise_for_status; by destruct (is_error _)|intros _].
  apply obind_not_starved;
    [unfold response_json; by destruct (body resp)|intros data].
  apply obind_not_starved; [by destruct data|intros v_items].
  apply obind_not_starved; [by destruct v_items|intros items].
  apply obind_not_starved; [apply append_items_not_starved|intros entries'].
  apply obind_not_starved; [by destruct data|done].
Qed.

(** C9.  A response whose cursor member is there and falsy, the empty
    string for one, does exactly what the same response without the member
    does, on whatever page it comes: the pagination ends with that response,
    with the same result and the same requests, one per page and none after
    it, and the rest of the script is never asked for. *)
Theorem paginate_empty_cursor self endpoint actor key pre status fields1 fields2
    cursor rest tr fs :
  Forall (more_pages key) pre →
  dict_get "cursor" fields1 = Some cursor →
  truthy cursor = false →
  dict_get "cursor" fields2 = None →
  dict_get key fields1 = dict_get key fields2 →
  let r1 := mk_response status (Some (JObj fields1)) in
  let r2 := mk_response status (Some (JObj fields2)) in
  let w1 := mk_world (pre ++ r1 :: rest) tr fs in
  let w2 := mk_world (pre ++ r2 :: rest) tr fs in
  _paginate self endpoint actor key w1 = _paginate self endpoint actor key w2
  ∧ (_paginate self endpoint actor key w1).1 ≠ Starved
  ∧ script (_paginate self endpoint actor key w1).2 = rest
  ∧ new_events w1 (_paginate self endpoint actor key w1).2
    = page_trace self endpoint actor JNull (pre ++ [r1])
  ∧ length (requests_of (new_events w1 (_paginate self endpoint actor key w1).2))
    = S (length pre).
Proof.
  intros Hpre H1 Hfalsy H2 Hkey r1 r2 w1 w2.
  assert (Hl1 : last_page r1 = true).
  { unfold last_page, page_cursor; simpl. rewrite H1; simpl. by rewrite Hfalsy. }
  assert (Hl2 : last_page r2 = true).
  { unfold last_page, page_cursor; simpl. by rewrite H2. }
  unfold _paginate, w1, w2; cbn [script].
  rewrite (paginate_loop_stops _ _ _ _ _ _ _ Hl1 Hpre)
    by (rewrite length_app; simpl; lia).
  rewrite (paginate_loop_stops _ _ _ _ _ _ _ Hl2 Hpre)
    by (rewrite length_app; simpl; lia).
  cbn [fst snd script trace].
  split; [|split; [|split; [|split]]].
  - f_equal; [|by rewrite (page_trace_last _ _ _ _ pre r1 r2)].
    unfold page_result; simpl. rewrite Hkey, H1, H2.
    destruct (raise_for_status _) as [[]| | |]; simpl; try done.
    destruct (py_iter _) as [items| | |]; simpl; try done.
    by destruct (append_items _ items).
  - apply obind_not_starved; [apply page_result_not_starved|done].
  - done.
  - unfold new_events; cbn [trace]. by rewrite drop_app_length.
  - unfold new_events; cbn [trace]. rewrite drop_app_length.
    clear. generalize JNull.
    induction pre as [|p pre IH]; intros c; [done|].
    rewrite <- app_comm_cons, page_trace_cons by (by destruct pre).
    unfold requests_of, omap in *; simpl. by rewrite IH.
Qed.

Lemma paginate_empty_cursor_witness :
  let fields1 := [("followers", JArr [item "did:plc:c" "c.test"]); ("cursor", JStr "")] in
  let fields2 := [("followers", JArr [item "did:plc:c" "c.test"])] in
  Forall (more_pages "followers") [page_one]
  ∧ dict_get "cursor" fields1 = Some (JStr "")
  ∧ truthy (JStr "") = false
  ∧ dict_get "cursor" fields2 = None
  ∧ dict_get "followers" fields1 = dict_get "followers" fields2
  ∧ _paginate anonymous "app.bsky.graph.getFollowers" "alice.test" "followers"
      (service [page_one; mk_response 200 (Some (JObj fields1)); page_two])
    = _paginate anonymous "app.bsky.graph.getFollowers" "alice.test" "followers"
        (service [page_one; mk_response 200 (Some (JObj fields2)); page_two]).
Proof.
  intros fields1 fields2.
  assert (Hpre : Forall (more_pages "followers") [page_one])
    by (by repeat constructor).
  split; [exact Hpre|].
  do 4 (split; [reflexivity|]).
  exact (proj1 (paginate_empty_cursor anonymous "app.bsky.graph.getFollowers"
                  "alice.test" "followers" [page_one] 200 fields1 fields2 (JStr "")
                  [page_two] [] ∅ Hpre eq_refl eq_refl eq_refl eq_refl)).
Defined.

(** ** Required and optional fields *)





(** [get_profile] on the world: one request, then the answer is read. *)
Lemma get_profile_step self actor w :
  get_profile self actor w =
  let tr := trace w ++ [EvRequest (profile_request self actor)] in
  match script w with
  | [] => (Starved, mk_world [] tr (files w))
  | resp :: rest =>
      (obind (raise_for_status resp) (λ _,
         obind (response_json resp) profile_of_json),
       mk_world rest tr (files w))
  end.
Proof.
  destruct w as [scr tr fs]; simpl.
  unfold get_profile, mbind, M_bind, session_get, send, log, receive, lift; simpl.
  destruct scr as [|resp rest]; simpl; [done|].
  destruct (raise_for_status resp) as [[]| | |]; simpl; try done.
  by destruct (response_json resp) as [d| | |].
Qed.



(** ** Which endpoint a request goes to *)

(** [_login] on the world: one request, then the answer is read. *)
Lemma login_step self handle password w :
  _login self handle password w =
  let tr := trace w ++ [EvRequest (login_request self handle password)] in
  match script w with
  | [] => (Starved, mk_world [] tr (files w))
  | resp :: rest =>
      (obind (raise_for_status resp) (λ _,
       obind (response_json resp) (λ data,
       obind (py_subscript data "accessJwt") (λ v_token,
       obind (py_subscript data "did") (λ v_did,
       obind (py_subscript data "handle") (λ _,
       obind (as_str v_token) (λ token,
       obind (as_str v_did) (λ did,
       Returned (BlueskyClient.mk (Some token) (Some did) true
                   (Some ("Bearer " +:+ token)))))))))),
       mk_world rest tr (files w))
  end.
Proof.
  destruct w as [scr tr fs]; simpl.
  unfold _login, mbind, M_bind, session_post, send, log, receive, lift; simpl.
  destruct scr as [|resp rest]; simpl; [done|].
  destruct (raise_for_status resp) as [[]| | |]; simpl; try done.
  destruct (response_json resp) as [data| | |]; simpl; try done.
  destruct (py_subscript data "accessJwt") as [v_token| | |]; simpl; try done.
  destruct (py_subscript data "did") as [v_did| | |]; simpl; try done.
  destruct (py_subscript data "handle") as [v_handle| | |]; simpl; try done.
  destruct (as_str v_token) as [token| | |]; simpl; try done.
  by destruct (as_str v_did) as [did| | |].
Qed.

(** A client that [_login] returns is authenticated. *)
Lemma login_authenticates self handle password w c w' :
  _login self handle password w = (Returned c, w') →
  BlueskyClient.authenticated c = true.
Proof.
  rewrite login_step; simpl.
  destruct (script w) as [|resp rest]; [done|].
  destruct (raise_for_status resp) as [[]| | |]; simpl; try done.
  destruct (response_json resp) as [data| | |]; simpl; try done.
  destruct (py_subscript data "accessJwt") as [v_token| | |]; simpl; try done.
  destruct (py_subscript data "did") as [v_did| | |]; simpl; try done.
  destruct (py_subscript data "handle") as [v_handle| | |]; simpl; try done.
  destruct (as_str v_token) as [token| | |]; simpl; try done.
  destruct (as_str v_did) as [did| | |]; simpl; try done.
  by intros [= <- _].
Qed.

(** C6.  [get_profile] sends its one request to the public endpoint,
    whatever the state of the client.  Every request of [_paginate] goes
    to [base_url], which is the authenticated endpoint exactly when the
    client is authenticated; and a client that [__init__] gives back is
    authenticated exactly when it has logged in. *)
Theorem profile_public_lists_by_login :
  (∀ self actor w,
     ∃ r, new_events w (get_profile self actor w).2 = [EvRequest r]
          ∧ req_url r = PUBLIC_API +:+ "/app.bsky.actor.getProfile")
  ∧ (∀ self endpoint actor key w r,
       EvRequest r ∈ new_events w (_paginate self endpoint actor key w).2 →
       req_url r = base_url self +:+ "/" +:+ endpoint)
  ∧ (∀ self, base_url self
             = if BlueskyClient.authenticated self then AUTH_API else PUBLIC_API)
  ∧ AUTH_API ≠ PUBLIC_API
  ∧ (∀ handle password w c w',
       new_client handle password w = (Returned c, w') →
       BlueskyClient.authenticated c = true
       ↔ ∃ h p, handle = Some h ∧ password = Some p
                ∧ _login (BlueskyClient.mk None None false None) h p w
                  = (Returned c, w')).
Proof.
  split; [|split; [|split; [|split]]].
  - intros self actor w. exists (profile_request self actor).
    rewrite get_profile_step; simpl. unfold new_events.
    destruct (script w); simpl; by rewrite drop_app_length.
  - intros self endpoint actor key w r. unfold _paginate, new_events.
    destruct (paginate_loop_trace self endpoint actor key
                (S (length (script w))) [] JNull 0%nat w) as (evs & -> & Hevs & _).
    rewrite drop_app_length. intros Hin.
    rewrite Forall_forall in Hevs. destruct (Hevs _ Hin) as [c ->]. done.
  - done.
  - done.
  - intros handle password w c w'. unfold new_client.
    destruct handle as [h|], password as [p|];
      try (intros [= <- <-]; simpl; split; [done|];
           by intros (? & ? & ? & ? & ?)).
    destruct (str_truthy h && str_truthy p) eqn:Hcreds.
    + intros Hlogin. split; [by eauto|].
      intros _. by eapply login_authenticates.
    + intros [= <- <-]; simpl. split; [done|].
      intros (h' & p' & [= <-] & [= <-] & Hlogin).
      by apply login_authenticates in Hlogin.
Qed.

Lemma profile_public_lists_by_login_witness :
  let w := service [mk_response 200 (Some session_body); page_two] in
  ∃ c w', new_client (Some "me.test") (Some "app-password") w = (Returned c, w')
    ∧ BlueskyClient.authenticated c = true
    ∧ (∀ r, EvRequest r ∈ new_events w' (_paginate c "app.bsky.graph.getFollowers"
                                           "alice.test" "followers" w').2 →
            req_url r = AUTH_API +:+ "/" +:+ "app.bsky.graph.getFollowers").
Proof.
  intros w.
  pose (c := BlueskyClient.mk (Some "token") (Some "did:plc:me") true
               (Some "Bearer token")).
  pose (w' := mk_world [page_two]
                [EvRequest (login_request anonymous "me.test" "app-password")] ∅).
  assert (Hnew : new_client (Some "me.test") (Some "app-password") w
                 = (Returned c, w')) by reflexivity.
  assert (Hlogin : ∃ h p, Some "me.test" = Some h ∧ Some "app-password" = Some p
            ∧ _login (BlueskyClient.mk None None false None) h p w = (Returned c, w'))
    by (by eexists _, _).
  destruct profile_public_lists_by_login as (_ & Hpages & _ & _ & Hinit).
  exists c, w'. split; [exact Hnew|]. split.
  - exact (proj2 (Hinit _ _ _ _ _ Hnew) Hlogin).
  - intros r Hr. exact (Hpages c _ _ _ _ r Hr).
Defined.

(** ** Login failure *)

(** An exception in the first of two steps is the exception of both. *)
Lemma bind_raised {A B} (m : M A) (k : A → M B) w e :
  (m w).1 = Raised e → (m ≫= k) w = (Raised e, (m w).2).
Proof.
  unfold mbind, M_bind. destruct (m w) as [[] w1]; simpl; try done.
  by intros [= ->].
Qed.

(** The exceptions [_login] can raise are not [SystemExit]. *)
Lemma login_raises self handle password w e :
  (_login self handle password w).1 = Raised e →
  (∀ code, e ≠ SystemExit code)
  ∧ new_events w (_login self handle password w).2
    = [EvRequest (login_request self handle password)]
  ∧ files (_login self handle password w).2 = files w
  ∧ ∃ resp, script w = resp :: script (_login self handle password w).2.
Proof.
  rewrite login_step; simpl. unfold new_events.
  destruct (script w) as [|resp rest]; [done|]; simpl.
  rewrite drop_app_length. intros H.
  split; [|split; [done|split; [done|by eexists]]]. intros code ->. revert H.
  unfold raise_for_status, response_json.
  destruct (is_error _); simpl; try done.
  destruct (body resp) as [data|]; simpl; try done.
  assert (Hsub : ∀ k (K : json → outcome BlueskyClient.t),
            (∀ v, K v ≠ Raised (SystemExit code)) →
            obind (py_subscript data k) K ≠ Raised (SystemExit code)).
  { intros k K HK. unfold py_subscript.
    destruct data as [| | | | |fields]; simpl; try done.
    destruct (dict_get k fields); simpl; [apply HK|done]. }
  apply Hsub; intros v_token. apply Hsub; intros v_did. apply Hsub; intros _.
  unfold as_str. destruct v_token; simpl; try done.
  by destruct v_did.
Qed.

(** C7, as the code has it.  When the login is attempted and [_login]
    raises, the run ends with exit status 1 after the one session request:
    no profile, followers or follows request is sent and no file written.
    [_login] raises whenever the answer to the session request has an HTTP
    error status, 400 to 599. *)
Theorem failed_login_exits_1 args h p w :
  Args.handle args = Some h → Args.password args = Some p →
  str_truthy h && str_truthy p = true →
  (∀ e, (_login anonymous h p w).1 = Raised e →
     (run args w).1 = Returned 1
     ∧ new_events w (run args w).2 = [EvRequest (login_request anonymous h p)]
     ∧ files (run args w).2 = files w)
  ∧ (∀ resp rest, script w = resp :: rest →
     is_error (status_code resp) = true →
     (_login anonymous h p w).1 = Raised (HTTPError (status_code resp))).
Proof.
  intros Hh Hp Hcreds. split.
  - intros e He.
    destruct (login_raises _ _ _ _ _ He) as (Hexit & Hev & Hfiles & _).
    unfold run, main, new_client. rewrite Hh, Hp, Hcreds.
    change (BlueskyClient.mk None None false None) with anonymous.
    rewrite (bind_raised (_login anonymous h p) _ w e He); simpl.
    split; [|done]. destruct e; try done. by destruct (Hexit code).
  - intros resp rest Hscr Herr. rewrite login_step; simpl. rewrite Hscr; simpl.
    unfold raise_for_status. by rewrite Herr.
Qed.

Lemma failed_login_exits_1_witness :
  let w := service [mk_response 401 None; mk_response 200 (Some profile_body)] in
  (run with_login w).1 = Returned 1
  ∧ new_events w (run with_login w).2
    = [EvRequest (login_request anonymous "me.test" "app-password")].
Proof.
  intros w.
  destruct (failed_login_exits_1 with_login "me.test" "app-password" w
              eq_refl eq_refl eq_refl) as [Hfail Hstatus].
  destruct (Hfail _ (Hstatus _ _ eq_refl eq_refl)) as (Hexit & Hev & _).
  exact (conj Hexit Hev).
Defined.

(** Not every status outside 200 to 299 makes the login fail: a session
    answer with status 300 and a well-formed body does not stop the run;
    the profile request is sent and the run ends with exit status 0. *)
Lemma login_status_300_goes_on :
  let resp := mk_response 300 (Some session_body) in
  let w := service [resp; mk_response 200 (Some profile_body); page_two; follows_page] in
  ¬ (200 ≤ status_code resp < 300)
  ∧ (run with_login w).1 = Returned 0
  ∧ ∃ r, EvRequest r ∈ trace (run with_login w).2
         ∧ req_url r = PUBLIC_API +:+ "/app.bsky.actor.getProfile".
Proof.
  intros resp w. split; [simpl; lia|]. split; [by vm_compute|].
  exists (mk_request GET (PUBLIC_API +:+ "/app.bsky.actor.getProfile")
            [("actor", JStr "alice.test")] None (Some "Bearer token")).
  split; [|done].
  assert (Htr : ∃ ev1 evs, trace (run with_login w).2
                  = ev1 :: EvRequest (mk_request GET
                       (PUBLIC_API +:+ "/app.bsky.actor.getProfile")
                       [("actor", JStr "alice.test")] None (Some "Bearer token"))
                    :: evs) by (by eexists _, _; vm_compute).
  destruct Htr as (ev1 & evs & ->). set_solver.
Qed.

(** ** The graph builder *)

(** The steps of a build that returns. *)
Lemma get_social_graph_returned self actor w g w' :
  get_social_graph self actor w = (Returned g, w') →
  ∃ profile w1 w2,
    get_profile self actor w = (Returned profile, w1)
    ∧ get_followers self actor w1 = (Returned (SocialGraph.followers g), w2)
    ∧ get_follows self actor w2 = (Returned (SocialGraph.follows g), w')
    ∧ SocialGraph.actor g = actor
    ∧ SocialGraph.profile g = Some profile
    ∧ SocialGraph.mutuals g
      = filter (λ f, GraphEntry.did f
                     ∈ (list_to_set (GraphEntry.did <$> SocialGraph.followers g)
                        : gset string))
          (SocialGraph.follows g).
Proof.
  unfold get_social_graph, mbind, M_bind.
  destruct (get_profile self actor w) as [[profile| | |] w1] eqn:E1; try done.
  destruct (get_followers self actor w1) as [[followers| | |] w2] eqn:E2; try done.
  destruct (get_follows self actor w2) as [[follows| | |] w3] eqn:E3; try done.
  intros [= <- <-]; simpl. by exists profile, w1, w2.
Qed.

(** C1.  In a graph that [get_social_graph] returns, the followers and
    the follows are the lists the two fetches returned, and the mutuals
    are the follows whose identifier is an identifier of some follower, in
    the order of the follows: a sublist of the follows, each with its
    identifier in the set of follower identifiers. *)
Theorem mutuals_of_built_graph self actor w g w' :
  get_social_graph self actor w = (Returned g, w') →
  (∃ w1 w2,
     get_followers self actor w1 = (Returned (SocialGraph.followers g), w2)
     ∧ get_follows self actor w2 = (Returned (SocialGraph.follows g), w'))
  ∧ SocialGraph.mutuals g
    = filter (λ f, GraphEntry.did f ∈ GraphEntry.did <$> SocialGraph.followers g)
        (SocialGraph.follows g)
  ∧ SocialGraph.mutuals g `sublist_of` SocialGraph.follows g
  ∧ SocialGraph.mutuals g ⊆ SocialGraph.follows g
  ∧ (∀ m, m ∈ SocialGraph.mutuals g →
       GraphEntry.did m
       ∈ (list_to_set (GraphEntry.did <$> SocialGraph.followers g) : gset string)).
Proof.
  intros (profile & w1 & w2 & _ & Hfollowers & Hfollows & _ & _ & Hm)
    %get_social_graph_returned.
  split; [by eauto|]. rewrite Hm.
  split; [|split; [|split]].
  - apply list_filter_iff. intros f. by rewrite elem_of_list_to_set.
  - apply sublist_filter.
  - apply list_subseteq_filter.
  - intros m Hin. by apply list_elem_of_filter in Hin as [? _].
Qed.

Lemma scenario_built :
  (get_social_graph anonymous "alice.test" scenario).1 = Returned scenario_graph.
Proof. by vm_compute. Qed.

Lemma mutuals_of_built_graph_witness :
  SocialGraph.mutuals scenario_graph
  = filter (λ f, GraphEntry.did f
                 ∈ GraphEntry.did <$> SocialGraph.followers scenario_graph)
      (SocialGraph.follows scenario_graph).
Proof.
  assert (H : get_social_graph anonymous "alice.test" scenario
              = (Returned scenario_graph,
                 (get_social_graph anonymous "alice.test" scenario).2)).
  { rewrite <- scenario_built. by destruct (get_social_graph _ _ _). }
  exact (proj1 (proj2 (mutuals_of_built_graph _ _ _ _ _ H))).
Defined.

(** C4.  Followers A, B, C and follows B, D with four different
    identifiers: the builder finds the one mutual B; the fans are A and C;
    D is followed and does not follow back. *)
Theorem scenario_three_followers_two_follows self actor w g w' A B C D :
  get_social_graph self actor w = (Returned g, w') →
  SocialGraph.followers g = [A; B; C] →
  SocialGraph.follows g = [B; D] →
  NoDup (GraphEntry.did <$> [A; B; C; D]) →
  SocialGraph.mutuals g = [B]
  ∧ fans g = [A; C]
  ∧ not_followed_back g = [D].
Proof.
  intros (_ & _ & _ & _ & _ & _ & _ & _ & Hm)%get_social_graph_returned
    Hfollowers Hfollows Hdids.
  unfold fans, not_followed_back. rewrite Hm, Hfollowers, Hfollows.
  simpl in Hdids. rewrite !NoDup_cons, !not_elem_of_cons in Hdids.
  destruct Hdids as ((HAB & HAC & HAD & _) & (HBC & HBD & _) & (HCD & _) & _).
  split; [|split].
  - rewrite filter_cons_True by decide_did.
    by rewrite filter_cons_False by decide_did.
  - rewrite filter_cons_True by decide_did.
    rewrite filter_cons_False by decide_did.
    by rewrite filter_cons_True by decide_did.
  - rewrite filter_cons_False by decide_did.
    by rewrite filter_cons_True by decide_did.
Qed.

Lemma scenario_three_followers_two_follows_witness :
  SocialGraph.mutuals scenario_graph = [entry "did:plc:b" "b.test"]
  ∧ fans scenario_graph = [entry "did:plc:a" "a.test"; entry "did:plc:c" "c.test"]
  ∧ not_followed_back scenario_graph = [entry "did:plc:d" "d.test"].
Proof.
  assert (H : get_social_graph anonymous "alice.test" scenario
              = (Returned scenario_graph,
                 (get_social_graph anonymous "alice.test" scenario).2)).
  { rewrite <- scenario_built. by destruct (get_social_graph _ _ _). }
  assert (Hdids : NoDup (GraphEntry.did <$>
            [entry "did:plc:a" "a.test"; entry "did:plc:b" "b.test";
             entry "did:plc:c" "c.test"; entry "did:plc:d" "d.test"])).
  { compute_done. }
  exact (scenario_three_followers_two_follows _ _ _ _ _ _ _ _ _
           H eq_refl eq_refl Hdids).
Defined.

(** ** CSV export *)

Lemma export_csv_writes graph path w :
  export_csv graph path w
  = (Returned (),
     mk_world (script w) (trace w) (<[path := export_csv_text graph]> (files w))).
Proof. done. Qed.

(** With no identifier repeated in [l], the entries of [l] whose identifier
    is in [F] are as many as the identifiers common to [l] and [F]. *)
Lemma filter_count_as_set_size {A} (f : A → string) (F : gset string) (l : list A) :
  NoDup (f <$> l) →
  length (filter (λ x, f x ∈ F) l)
  = size ((list_to_set (f <$> l) : gset string) ∩ F).
Proof.
  induction l as [|x l IH]; intros Hnd.
  - by rewrite fmap_nil, list_to_set_nil, intersection_empty_l_L, size_empty.
  - rewrite fmap_cons in Hnd. apply NoDup_cons in Hnd as [Hx Hnd].
    rewrite fmap_cons, list_to_set_cons, filter_cons.
    destruct (decide (f x ∈ F)) as [Hin|Hout].
    + rewrite length_cons, IH by done.
      replace (({[f x]} ∪ list_to_set (f <$> l)) ∩ F)
        with ({[f x]} ∪ (list_to_set (f <$> l) ∩ F) : gset string) by set_solver.
      pose proof (@size_union string (gset string) _ _ _ _ _ _ _ _ _
                    {[f x]} (list_to_set (f <$> l) ∩ F)) as Hsize.
      rewrite Hsize, size_singleton; [done|].
      rewrite <- (elem_of_list_to_set (C:=gset string)) in Hx. set_solver.
    + rewrite IH by done. f_equal. set_solver.
Qed.

(** The CSV text of any graph: the header, then the cells of the rows in
    the order they are written, each as one record of the writer. *)
Lemma export_csv_text_rows graph :
  export_csv_text graph
  = String.concat ""
      (csv_writerow <$> (fieldnames :: ((λ row, row.*2) <$> csv_rows graph))).
Proof.
  unfold export_csv_text.
  change dict_writeheader with (csv_writerow fieldnames).
  assert (Hrows : dict_writerow <$> csv_rows graph
                  = csv_writerow <$> ((λ row, row.*2) <$> csv_rows graph)).
  { unfold csv_rows, csv_follower_rows, csv_follow_rows.
    rewrite !fmap_app, <- !list_fmap_compose. by f_equal. }
  by rewrite Hrows, fmap_cons, string_concat_cons.
Qed.

(** Read back, it gives these records. *)
Lemma export_csv_text_read graph :
  csv_read (export_csv_text graph)
  = Some (fieldnames :: ((λ row, row.*2) <$> csv_rows graph)).
Proof.
  rewrite export_csv_text_rows.
  apply csv_read_written. constructor; [done|].
  apply Forall_fmap, Forall_forall. intros row.
  unfold csv_rows, csv_follower_rows, csv_follow_rows.
  by intros [(e & -> & _)%list_elem_of_fmap|(e & -> & _)%list_elem_of_fmap]%elem_of_app.
Qed.

(** C3, as the code has it.  For every graph that [get_social_graph]
    built, the text [export_csv] hands to the file, which the file holds
    when the export returns, is the header and then one record per row, as
    [csv.writer] writes them: one row per follower, labelled "mutual" if
    the follower's identifier is also a follow's and "follower" if not,
    then one row labelled "following" per follow whose identifier is no
    follower's; read back as CSV, the text gives these rows.  So no row of
    the follow pass carries the identifier of a follower, and the number
    of data rows is the number of followers plus the number of follows
    less the follows whose identifier is a follower's; these are as many
    as the identifiers the two lists share when no identifier comes twice
    among the follows. *)
Theorem csv_rows_of_graph self actor w graph w' path :
  get_social_graph self actor w = (Returned graph, w') →
  let followers := SocialGraph.followers graph in
  let follows := SocialGraph.follows graph in
  let is_follower (e : GraphEntry.t) := GraphEntry.did e ∈ GraphEntry.did <$> followers in
  let is_follow (e : GraphEntry.t) := GraphEntry.did e ∈ GraphEntry.did <$> follows in
  let follower_rows :=
    (λ e, csv_cells (if bool_decide (is_follow e) then "mutual" else "follower") e)
      <$> followers in
  let follow_rows := csv_cells "following" <$> filter (λ e, ¬ is_follower e) follows in
  (∃ text, export_csv graph path = write_text path text
           ∧ (∀ w0, (export_csv graph path w0).1 = Returned () →
                    files (export_csv graph path w0).2 !! path = Some text)
           ∧ text = String.concat ""
                      (csv_writerow <$> (fieldnames :: follower_rows ++ follow_rows))
           ∧ csv_read text = Some (fieldnames :: follower_rows ++ follow_rows))
  ∧ (∀ row d, row ∈ follow_rows → row !! 1%nat = Some d →
       d ∉ GraphEntry.did <$> followers)
  ∧ length (follower_rows ++ follow_rows)
    = (length followers + (length follows - length (filter is_follower follows)))%nat
  ∧ (NoDup (GraphEntry.did <$> follows) →
     length (filter is_follower follows)
     = size ((list_to_set (GraphEntry.did <$> follows) : gset string)
             ∩ list_to_set (GraphEntry.did <$> followers))).
Proof.
  intros (profile & w1 & w2 & _ & _ & _ & _ & _ & Hm)%get_social_graph_returned
    followers follows is_follower is_follow follower_rows follow_rows.
  split; [|split; [|split]].
  - exists (export_csv_text graph). split; [done|].
    split; [intros w0 _; rewrite export_csv_writes; apply lookup_insert_eq|].
    rewrite export_csv_text_read, export_csv_text_rows.
    assert (Hrows : (λ row, row.*2) <$> csv_rows graph
                    = follower_rows ++ follow_rows); [|by rewrite Hrows].
    unfold csv_rows. rewrite fmap_app. f_equal.
    + unfold csv_follower_rows, follower_rows.
      rewrite <- list_fmap_compose. apply list_fmap_ext.
      intros i e He%list_elem_of_lookup_2.
      assert (Hb : bool_decide (GraphEntry.did e
                     ∈ (list_to_set (GraphEntry.did <$> SocialGraph.mutuals graph)
                        : gset string))
                   = bool_decide (is_follow e)).
      { apply bool_decide_ext.
        rewrite elem_of_list_to_set, Hm. unfold is_follow.
        rewrite !list_elem_of_fmap. split.
        - intros (m & -> & [_ Hin]%list_elem_of_filter). by exists m.
        - intros (f & Hdid & Hin). exists f. split; [done|].
          apply list_elem_of_filter. split; [|done].
          rewrite elem_of_list_to_set, <- Hdid. by apply list_elem_of_fmap_2. }
      unfold csv_cells; simpl. by rewrite Hb.
    + unfold csv_follow_rows, follow_rows.
      rewrite <- list_fmap_compose.
      replace (filter (λ e, GraphEntry.did e ∉ _) (SocialGraph.follows graph))
        with (filter (λ e, ¬ is_follower e) follows); [done|].
      apply list_filter_iff. intros e. unfold is_follower.
      by rewrite elem_of_list_to_set.
  - intros row d (e & -> & [Hnot _]%list_elem_of_filter)%list_elem_of_fmap.
    by intros [= <-].
  - unfold follower_rows, follow_rows. rewrite length_app, !length_fmap.
    pose proof (filter_app_complement is_follower follows) as Hperm.
    apply Permutation_length in Hperm. rewrite length_app in Hperm. lia.
  - intros Hnd.
    rewrite <- (filter_count_as_set_size GraphEntry.did _ follows Hnd).
    f_equal. apply list_filter_iff. intros e. unfold is_follower.
    by rewrite elem_of_list_to_set.
Qed.

Lemma csv_rows_of_graph_witness :
  ∃ text,
    export_csv scenario_graph "alice_test_graph.csv"
    = write_text "alice_test_graph.csv" text
    ∧ csv_read text
      = Some [fieldnames;
              csv_cells "follower" (entry "did:plc:a" "a.test");
              csv_cells "mutual" (entry "did:plc:b" "b.test");
              csv_cells "follower" (entry "did:plc:c" "c.test");
              csv_cells "following" (entry "did:plc:d" "d.test")].
Proof.
  assert (H : get_social_graph anonymous "alice.test" scenario
              = (Returned scenario_graph,
                 (get_social_graph anonymous "alice.test" scenario).2)).
  { rewrite <- scenario_built. by destruct (get_social_graph _ _ _). }
  destruct (proj1 (csv_rows_of_graph _ _ _ _ _ "alice_test_graph.csv" H))
    as (text & Hwrite & _ & _ & Hread).
  exists text. split; [exact Hwrite|].
  rewrite Hread. by vm_compute.
Defined.

(** The scenario as a CSV file. *)
Example scenario_csv :
  export_csv_text scenario_graph
  = "relationship,did,handle,display_name,description,indexed_at" +:+ str CR +:+ str LF
    +:+ "follower,did:plc:a,a.test,,," +:+ str CR +:+ str LF
    +:+ "mutual,did:plc:b,b.test,,," +:+ str CR +:+ str LF
    +:+ "follower,did:plc:c,c.test,,," +:+ str CR +:+ str LF
    +:+ "following,did:plc:d,d.test,,," +:+ str CR +:+ str LF.
Proof. by vm_compute. Qed.

(** A field with a comma and a quote is quoted, the quote doubled. *)
Example csv_field_quoted :
  csv_field ("a," +:+ str dquote +:+ "b")
  = str dquote +:+ "a," +:+ str dquote +:+ str dquote +:+ "b" +:+ str dquote.
Proof. reflexivity. Qed.

(** The data rows are not counted by the identifiers the two lists
    share.  When the service names a follower twice among the follows, the
    graph built has one follower and two follows with one identifier in
    common; the file has the one row of the follower, and not the two rows
    that the number of followers, plus the number of follows, less the
    number of shared identifiers would make. *)
Lemma csv_row_count_repeated_follow :
  ∃ graph w' rows,
    get_social_graph anonymous "alice.test" scenario_repeated_follow
    = (Returned graph, w')
    ∧ csv_read (export_csv_text graph) = Some (fieldnames :: rows)
    ∧ length rows = 1%nat
    ∧ (length (SocialGraph.followers graph)
       + (length (SocialGraph.follows graph)
          - size ((list_to_set (GraphEntry.did <$> SocialGraph.follows graph)
                   : gset string)
                  ∩ list_to_set (GraphEntry.did <$> SocialGraph.followers graph))))%nat
      = 2%nat.
Proof.
  eexists _, _, _. split; [by vm_compute|].
  split; [by vm_compute|]. split; [done|].
  cbn [SocialGraph.followers SocialGraph.follows length fmap list_fmap
       GraphEntry.did entry].
  rewrite !list_to_set_cons, list_to_set_nil.
  replace (({["did:plc:b"]} ∪ ({["did:plc:b"]} ∪ ∅)) ∩ ({["did:plc:b"]} ∪ ∅))
    with ({["did:plc:b"]} : gset string) by set_solver.
  by rewrite size_singleton.
Qed.

(** ** JSON export *)

Lemma export_json_writes graph path w :
  export_json graph path w
  = (Returned (),
     mk_world (script w) (trace w)
       (<[path := json_dumps (export_json_data graph)]> (files w))).
Proof. done. Qed.

(** A small dump: two spaces a level, [", "] never, [": "] after a key. *)
Example json_dumps_small :
  json_dumps (JObj [("a", JArr [JInt 1; JNull]); ("b", JObj []); ("c", JStr "x")])
  = "{" +:+ str LF
    +:+ "  " +:+ str dquote +:+ "a" +:+ str dquote +:+ ": [" +:+ str LF
    +:+ "    1," +:+ str LF
    +:+ "    null" +:+ str LF
    +:+ "  ]," +:+ str LF
    +:+ "  " +:+ str dquote +:+ "b" +:+ str dquote +:+ ": {}," +:+ str LF
    +:+ "  " +:+ str dquote +:+ "c" +:+ str dquote +:+ ": "
    +:+ str dquote +:+ "x" +:+ str dquote +:+ str LF
    +:+ "}".
Proof. reflexivity. Qed.

(** C8.  The text [export_json] hands to the file, which the file holds
    when the export returns, is the JSON writing of an object with the
    members [actor], [profile], [followers], [follows], [mutuals] and
    [stats] and no other.  Read back, it gives the actor;
    the profile with its seven fields, or null when there is none; the
    three lists in full and in order, every entry with its five fields;
    and in [stats] the three counts, each the length of the list exported
    next to it. *)
Theorem json_export_content graph path :
  let entry_json (e : GraphEntry.t) :=
    JObj [("did", JStr (GraphEntry.did e));
          ("handle", JStr (GraphEntry.handle e));
          ("display_name", JStr (GraphEntry.display_name e));
          ("description", JStr (GraphEntry.description e));
          ("indexed_at", JStr (GraphEntry.indexed_at e))] in
  let profile_json (p : Profile.t) :=
    JObj [("did", JStr (Profile.did p));
          ("handle", JStr (Profile.handle p));
          ("display_name", JStr (Profile.display_name p));
          ("description", JStr (Profile.description p));
          ("followers_count", JInt (Profile.followers_count p));
          ("follows_count", JInt (Profile.follows_count p));
          ("posts_count", JInt (Profile.posts_count p))] in
  ∃ text fields followers follows mutuals stats,
    export_json graph path = write_text path text
    ∧ (∀ w, (export_json graph path w).1 = Returned () →
            files (export_json graph path w).2 !! path = Some text)
    ∧ text = json_dumps (JObj fields)
    ∧ read_json text = Some (JObj fields)
    ∧ fields.*1 = ["actor"; "profile"; "followers"; "follows"; "mutuals"; "stats"]
    ∧ dict_get "actor" fields = Some (JStr (SocialGraph.actor graph))
    ∧ dict_get "profile" fields
      = Some (from_option profile_json JNull (SocialGraph.profile graph))
    ∧ dict_get "followers" fields = Some (JArr followers)
    ∧ followers = entry_json <$> SocialGraph.followers graph
    ∧ dict_get "follows" fields = Some (JArr follows)
    ∧ follows = entry_json <$> SocialGraph.follows graph
    ∧ dict_get "mutuals" fields = Some (JArr mutuals)
    ∧ mutuals = entry_json <$> SocialGraph.mutuals graph
    ∧ dict_get "stats" fields = Some (JObj stats)
    ∧ stats = [("followers_count", JInt (Z.of_nat (length followers)));
               ("follows_count", JInt (Z.of_nat (length follows)));
               ("mutuals_count", JInt (Z.of_nat (length mutuals)))].
Proof.
  intros entry_json profile_json.
  exists (json_dumps (export_json_data graph)). do 5 eexists.
  split; [reflexivity|].
  split; [intros w _; rewrite export_json_writes; apply lookup_insert_eq|].
  split; [reflexivity|].
  split; [apply read_json_written|].
  split; [reflexivity|]. split; [reflexivity|].
  split; [by destruct (SocialGraph.profile graph)|].
  do 7 (split; [reflexivity|]).
  unfold len. by rewrite !length_fmap.
Qed.

Lemma json_export_content_witness :
  ∃ text fields,
    files (export_json scenario_graph "a.json" scenario).2 !! "a.json" = Some text
    ∧ read_json text = Some (JObj fields)
    ∧ dict_get "actor" fields = Some (JStr "alice.test").
Proof.
  destruct (json_export_content scenario_graph "a.json")
    as (text & fields & followers & follows & mutuals & stats
        & _ & Hfile & _ & Hread & _ & Hactor & _).
  exists text, fields.
  exact (conj (Hfile scenario eq_refl) (conj Hread Hactor)).
Defined.

(** The scenario as a JSON file: what is read back from it. *)
Example scenario_json :
  read_json (json_dumps (export_json_data scenario_graph))
  = Some (JObj [("actor", JStr "alice.test");
                ("profile", asdict_profile (Profile.mk "did:plc:alice" "alice.test"
                                              "" "" 3 2 0));
                ("followers", JArr [asdict_entry (entry "did:plc:a" "a.test");
                                    asdict_entry (entry "did:plc:b" "b.test");
                                    asdict_entry (entry "did:plc:c" "c.test")]);
                ("follows", JArr [asdict_entry (entry "did:plc:b" "b.test");
                                  asdict_entry (entry "did:plc:d" "d.test")]);
                ("mutuals", JArr [asdict_entry (entry "did:plc:b" "b.test")]);
                ("stats", JObj [("followers_count", JInt 3);
                                ("follows_count", JInt 2);
                                ("mutuals_count", JInt 1)])]).
Proof. by vm_compute. Qed.

(** ** Exporting twice *)

(** C5.  The content an exporter writes depends on the graph alone: the
    same graph exported to two paths, from any two states of the file
    system, gives the same content, and after two exports in a row to
    different paths both files hold it. *)
Theorem export_twice_same_content graph path1 path2 w1 w2 :
  (files (export_json graph path1 w1).2 !! path1
   = files (export_json graph path2 w2).2 !! path2
   ∧ is_Some (files (export_json graph path1 w1).2 !! path1))
  ∧ (files (export_csv graph path1 w1).2 !! path1
     = files (export_csv graph path2 w2).2 !! path2
     ∧ is_Some (files (export_csv graph path1 w1).2 !! path1))
  ∧ (path1 ≠ path2 →
     (let fs := files (export_json graph path2 (export_json graph path1 w1).2).2 in
      fs !! path1 = fs !! path2 ∧ is_Some (fs !! path1))
     ∧ (let fs := files (export_csv graph path2 (export_csv graph path1 w1).2).2 in
        fs !! path1 = fs !! path2 ∧ is_Some (fs !! path1))).
Proof.
  rewrite !export_json_writes, !export_csv_writes; simpl.
  repeat rewrite lookup_insert_eq.
  split; [by eauto|]. split; [by eauto|].
  intros Hne%not_eq_sym.
  split; rewrite lookup_insert_ne, lookup_insert_eq by done; by eauto.
Qed.

Lemma export_twice_same_content_witness :
  let fs := files (export_json scenario_graph "b.json"
                     (export_json scenario_graph "a.json" scenario).2).2 in
  fs !! "a.json" = fs !! "b.json" ∧ is_Some (fs !! "a.json").
Proof.
  assert (Hne : "a.json" ≠ "b.json") by done.
  exact (proj1 (proj2 (proj2 (export_twice_same_content scenario_graph
                                "a.json" "b.json" scenario scenario)) Hne)).
Defined.

(** * Further properties *)

(** ** Pages in order, cursors handed on *)

(** The loop, when it returns: the pages it took from the script, their
    entries behind the accumulator, and the events it added. *)
Lemma paginate_loop_pages self endpoint actor key fuel entries cursor page w es w' :
  paginate_loop fuel self endpoint actor key entries cursor page w = (Returned es, w') →
  ∃ fetched,
    fetched ≠ []
    ∧ script w = fetched ++ script w'
    ∧ es = entries ++ concat (page_entries key <$> fetched)
    ∧ trace w' = trace w ++ page_trace self endpoint actor cursor fetched
    ∧ files w' = files w.
Proof.
  revert entries cursor page w.
  induction fuel as [|fuel IH]; intros entries cursor page w; [done|].
  rewrite paginate_loop_step; simpl.
  destruct (script w) as [|resp rest] eqn:Hscr; [done|].
  rewrite page_result_acc.
  destruct (page_result key [] resp) as [[es1 c]| | |] eqn:Hpage; try done.
  destruct (page_result_returned _ _ _ _ Hpage) as [_ ->]. simpl.
  assert (Hes1 : page_entries key resp = es1)
    by (unfold page_entries; by rewrite Hpage).
  destruct (truthy (page_cursor resp)).
  - intros (fetched & Hne & Hs & -> & Htr & Hfs)%IH. simpl in *.
    exists (resp :: fetched). split; [done|]. split; [by rewrite Hs|].
    split; [by rewrite fmap_cons, concat_cons, Hes1, app_assoc|].
    split; [|done]. rewrite Htr, page_trace_cons by done.
    by rewrite <- !app_assoc.
  - intros [= <- <-]. exists [resp]. simpl.
    by rewrite Hes1, app_nil_r.
Qed.

(** X1.  What [_paginate] returns is the entries of the pages it fetched, page
    after page in the order of the service; the first request carries no
    cursor, every later one the cursor of the page before, with one pause
    between two requests and none after the last; no file is touched. *)
Theorem paginate_pages_in_order self endpoint actor key w es w' :
  _paginate self endpoint actor key w = (Returned es, w') →
  ∃ fetched,
    script w = fetched ++ script w'
    ∧ es = concat (page_entries key <$> fetched)
    ∧ new_events w w' = page_trace self endpoint actor JNull fetched
    ∧ sleeps_of (new_events w w') = (length fetched - 1)%nat
    ∧ files w' = files w.
Proof.
  unfold _paginate.
  intros (fetched & Hne & Hs & -> & Htr & Hfs)%paginate_loop_pages.
  exists fetched. unfold new_events. rewrite Htr, drop_app_length.
  do 3 (split; [done|]). split; [|done].
  clear. generalize JNull.
  induction fetched as [|r [|r' rest] IH]; intros c; [done..|].
  rewrite page_trace_cons by done.
  unfold sleeps_of in *. simpl in *. rewrite IH. lia.
Qed.

Lemma paginate_pages_in_order_witness :
  let w := service [page_one; page_two] in
  let es := [entry "did:plc:a" "a.test"; entry "did:plc:b" "b.test";
             entry "did:plc:c" "c.test"] in
  ∃ fetched,
    script w = fetched ++ []
    ∧ es = concat (page_entries "followers" <$> fetched).
Proof.
  destruct (paginate_pages_in_order anonymous "app.bsky.graph.getFollowers"
              "alice.test" "followers" _ _ _ paginate_two_pages)
    as (fetched & Hs & Hes & _).
  exists fetched. exact (conj Hs Hes).
Defined.

(** ** A page that fails *)

(** X2.  A page that is not processed ends the fetch with its failure:
    [_paginate] raises it and gives back none of the entries of the pages
    before; the request of the failing page is the last one sent, there is
    no retry, and the responses behind it stay with the service.  An HTTP
    error status is such a failure, whatever the body. *)
Theorem paginate_failure_aborts self endpoint actor key w pre bad rest :
  script w = pre ++ bad :: rest →
  Forall (more_pages key) pre →
  (∀ e, page_result key [] bad = Raised e →
     _paginate self endpoint actor key w
     = (Raised e,
        mk_world rest
          (trace w ++ page_trace self endpoint actor JNull (pre ++ [bad]))
          (files w)))
  ∧ (is_error (status_code bad) = true →
     page_result key [] bad = Raised (HTTPError (status_code bad))).
Proof.
  intros Hscr Hpre. split.
  - intros e Hbad. destruct w as [scr tr fs]. simpl in Hscr. subst scr.
    unfold _paginate. cbn [script trace files].
    apply paginate_loop_fails; [done..|].
    rewrite length_app. simpl. lia.
  - intros Herr. unfold page_result, raise_for_status. by rewrite Herr.
Qed.

Lemma paginate_failure_aborts_witness :
  let bad := mk_response 503 (Some (JObj [("followers", JArr [])])) in
  let w := service [page_one; bad; page_two] in
  _paginate anonymous "app.bsky.graph.getFollowers" "alice.test" "followers" w
  = (Raised (HTTPError 503),
     mk_world [page_two]
       (page_trace anonymous "app.bsky.graph.getFollowers" "alice.test" JNull
          [page_one; bad]) ∅).
Proof.
  intros bad w.
  assert (Hpre : Forall (more_pages "followers") [page_one])
    by (by repeat constructor).
  destruct (paginate_failure_aborts anonymous "app.bsky.graph.getFollowers"
              "alice.test" "followers" w [page_one] bad [page_two] eq_refl Hpre)
    as [Hfail Hstatus].
  exact (Hfail _ (Hstatus eq_refl)).
Defined.

(** X3.  A response that has no member under the key of the list is an
    empty page, not a failure: it adds no entry, and its cursor decides as
    usual whether the fetch goes on. *)
Theorem paginate_missing_key self endpoint actor key status fields rest tr fs :
  is_error status = false →
  dict_get key fields = None →
  let resp := mk_response status (Some (JObj fields)) in
  page_ok key resp = true
  ∧ page_entries key resp = []
  ∧ (last_page resp = true →
     _paginate self endpoint actor key (mk_world (resp :: rest) tr fs)
     = (Returned [],
        mk_world rest (tr ++ [EvRequest (page_request self endpoint actor JNull)]) fs)).
Proof.
  intros Hstatus Hkey resp.
  assert (Hpage : page_result key [] resp
                  = Returned ([], default JNull (dict_get "cursor" fields))).
  { unfold page_result, raise_for_status; simpl. rewrite Hstatus; simpl.
    by rewrite Hkey. }
  split; [unfold page_ok; by rewrite Hpage|].
  split; [unfold page_entries; by rewrite Hpage|].
  intros Hlast. rewrite paginate_last_page by done. by rewrite Hpage.
Qed.

Lemma paginate_missing_key_witness :
  _paginate anonymous "app.bsky.graph.getFollowers" "alice.test" "followers"
    (service [follows_page])
  = (Returned [],
     mk_world []
       [EvRequest (page_request anonymous "app.bsky.graph.getFollowers"
                     "alice.test" JNull)] ∅).
Proof.
  exact (proj2 (proj2 (paginate_missing_key anonymous "app.bsky.graph.getFollowers"
                         "alice.test" "followers" 200
                         [("follows", JArr [item "did:plc:b" "b.test";
                                            item "did:plc:d" "d.test"])]
                         [] [] ∅ eq_refl eq_refl)) eq_refl).
Defined.

(** ** Logging in *)

(** The client a login returns. *)
Lemma login_client self handle password w c w' :
  _login self handle password w = (Returned c, w') →
  ∃ token did,
    c = BlueskyClient.mk (Some token) (Some did) true (Some ("Bearer " +:+ token)).
Proof.
  rewrite login_step; simpl.
  destruct (script w) as [|resp rest]; [done|].
  destruct (raise_for_status resp) as [[]| | |]; simpl; try done.
  destruct (response_json resp) as [data| | |]; simpl; try done.
  destruct (py_subscript data "accessJwt") as [v_token| | |]; simpl; try done.
  destruct (py_subscript data "did") as [v_did| | |]; simpl; try done.
  destruct (py_subscript data "handle") as [v_handle| | |]; simpl; try done.
  destruct v_token as [| | |token| |]; simpl; try done.
  destruct v_did as [| | |did| |]; simpl; try done.
  intros [= <- _]. by exists token, did.
Qed.

(** X4.  [_login] returns only on an answer without error status whose
    body is an object holding [accessJwt], [did] and [handle]; the client
    it returns is authenticated, keeps the token and the identifier of the
    answer, and has the token as bearer credential in its session.  One
    request was sent and no file touched. *)
Theorem login_returns self handle password w c w' :
  _login self handle password w = (Returned c, w') →
  ∃ resp fields token did,
    script w = resp :: script w'
    ∧ is_error (status_code resp) = false
    ∧ body resp = Some (JObj fields)
    ∧ dict_get "accessJwt" fields = Some (JStr token)
    ∧ dict_get "did" fields = Some (JStr did)
    ∧ is_Some (dict_get "handle" fields)
    ∧ c = BlueskyClient.mk (Some token) (Some did) true (Some ("Bearer " +:+ token))
    ∧ new_events w w' = [EvRequest (login_request self handle password)]
    ∧ files w' = files w.
Proof.
  rewrite login_step; simpl. unfold new_events.
  destruct (script w) as [|resp rest]; [done|].
  unfold raise_for_status, response_json, py_subscript.
  destruct (is_error (status_code resp)) eqn:Hstatus; simpl; [done|].
  destruct (body resp) as [[| | | | |fields]|] eqn:Hbody; simpl; try done.
  destruct (dict_get "accessJwt" fields) as [v_token|] eqn:Htoken; simpl; [|done].
  destruct (dict_get "did" fields) as [v_did|] eqn:Hdid; simpl; [|done].
  destruct (dict_get "handle" fields) as [v_handle|] eqn:Hhandle; simpl; [|done].
  destruct v_token as [| | |token| |]; simpl; try done.
  destruct v_did as [| | |did| |]; simpl; try done.
  intros [= <- <-]; simpl. exists resp, fields, token, did.
  rewrite drop_app_length. by eauto 10.
Qed.

Lemma login_returns_witness :
  ∃ c w', _login anonymous "me.test" "app-password"
            (service [mk_response 200 (Some session_body)]) = (Returned c, w')
          ∧ c = BlueskyClient.mk (Some "token") (Some "did:plc:me") true
                  (Some "Bearer token").
Proof.
  eexists _, _. split; [reflexivity|].
  destruct (login_returns anonymous "me.test" "app-password"
              (service [mk_response 200 (Some session_body)]) _ _ eq_refl)
    as (resp & fields & token & did & _). reflexivity.
Defined.

(** X5.  The handle of the answer is only read to be shown, yet it is
    required: an answer that holds the token and the identifier but no
    [handle] makes [_login] raise [KeyError], after the request was sent. *)
Theorem login_needs_handle self handle password status fields v_token v_did
    rest tr fs :
  is_error status = false →
  dict_get "accessJwt" fields = Some v_token →
  dict_get "did" fields = Some v_did →
  dict_get "handle" fields = None →
  _login self handle password
    (mk_world (mk_response status (Some (JObj fields)) :: rest) tr fs)
  = (Raised (KeyError "handle"),
     mk_world rest (tr ++ [EvRequest (login_request self handle password)]) fs).
Proof.
  intros Hstatus Htoken Hdid Hhandle. rewrite login_step; simpl.
  unfold raise_for_status; simpl. by rewrite Hstatus, Htoken, Hdid, Hhandle.
Qed.

Lemma login_needs_handle_witness :
  (_login anonymous "me.test" "app-password"
     (service [mk_response 200
                 (Some (JObj [("accessJwt", JStr "token");
                              ("did", JStr "did:plc:me")]))])).1
  = Raised (KeyError "handle").
Proof.
  exact (f_equal fst
           (login_needs_handle anonymous "me.test" "app-password" 200
              [("accessJwt", JStr "token"); ("did", JStr "did:plc:me")]
              (JStr "token") (JStr "did:plc:me") [] [] ∅
              eq_refl eq_refl eq_refl eq_refl)).
Defined.

(** X6.  The constructor logs in exactly when a handle and a password are
    both given and not empty: then the session request is the first thing
    sent; otherwise nothing is sent and the client is the anonymous one. *)
Theorem login_attempted_iff_credentials handle password w :
  (∀ h p, handle = Some h → password = Some p → h ≠ "" → p ≠ "" →
     new_client handle password w = _login anonymous h p w
     ∧ ∃ evs, trace (new_client handle password w).2
              = trace w ++ EvRequest (login_request anonymous h p) :: evs)
  ∧ ((handle = None ∨ handle = Some "" ∨ password = None ∨ password = Some "") →
     new_client handle password w = (Returned anonymous, w)).
Proof.
  split.
  - intros h p -> -> Hh Hp. unfold new_client, str_truthy.
    apply String.eqb_neq in Hh, Hp. rewrite Hh, Hp. simpl.
    split; [done|]. rewrite login_step; simpl.
    destruct (script w); by exists [].
  - unfold new_client.
    destruct handle as [h|], password as [p|]; try done.
    intros [H|[[= ->]|[H|[= ->]]]]; try done.
    by destruct (str_truthy h).
Qed.

Lemma login_attempted_iff_credentials_witness :
  new_client (Some "me.test") (Some "") (service [mk_response 200 (Some session_body)])
  = (Returned anonymous, service [mk_response 200 (Some session_body)])
  ∧ new_client (Some "me.test") (Some "pw") (service [])
    = _login anonymous "me.test" "pw" (service []).
Proof.
  split.
  - exact (proj2 (login_attempted_iff_credentials (Some "me.test") (Some "") _)
             (or_intror (or_intror (or_intror eq_refl)))).
  - assert (H1 : "me.test" ≠ "") by done. assert (H2 : "pw" ≠ "") by done.
    exact (proj1 (proj1 (login_attempted_iff_credentials (Some "me.test")
                           (Some "pw") (service []))
                    "me.test" "pw" eq_refl eq_refl H1 H2)).
Defined.

(** ** The requests of a build *)

Lemma paginate_trace self endpoint actor key w :
  ∃ evs, trace (_paginate self endpoint actor key w).2 = trace w ++ evs
    ∧ Forall (page_event self endpoint actor) evs
    ∧ files (_paginate self endpoint actor key w).2 = files w.
Proof. apply paginate_loop_trace. Qed.

(** The three endpoints are three different addresses. *)
Lemma endpoints_differ self :
  req_url (profile_request self "") ≠ base_url self +:+ "/" +:+ "app.bsky.graph.getFollowers"
  ∧ req_url (profile_request self "") ≠ base_url self +:+ "/" +:+ "app.bsky.graph.getFollows"
  ∧ base_url self +:+ "/" +:+ "app.bsky.graph.getFollowers"
    ≠ base_url self +:+ "/" +:+ "app.bsky.graph.getFollows".
Proof. unfold base_url. by destruct (BlueskyClient.authenticated self). Qed.

(** The events of a build, however it ends: the profile request, then the
    events of the fetch of the followers, then those of the fetch of the
    follows; a fetch has events only if the step before it returned. *)
Lemma get_social_graph_events self actor w :
  ∃ evs1 evs2,
    new_events w (get_social_graph self actor w).2
    = EvRequest (profile_request self actor) :: evs1 ++ evs2
    ∧ Forall (page_event self "app.bsky.graph.getFollowers" actor) evs1
    ∧ Forall (page_event self "app.bsky.graph.getFollows" actor) evs2
    ∧ (evs1 ≠ [] → ∃ p w1, get_profile self actor w = (Returned p, w1))
    ∧ (evs2 ≠ [] → ∃ p w1 fs w2,
         get_profile self actor w = (Returned p, w1)
         ∧ get_followers self actor w1 = (Returned fs, w2))
    ∧ files (get_social_graph self actor w).2 = files w.
Proof.
  unfold get_social_graph, mbind, M_bind, new_events.
  destruct (get_profile self actor w) as [o1 w1] eqn:E1.
  assert (H1 : trace w1 = trace w ++ [EvRequest (profile_request self actor)]
               ∧ files w1 = files w).
  { rewrite get_profile_step in E1. simpl in E1.
    destruct (script w); by injection E1 as _ <-. }
  destruct H1 as [Ht1 Hf1].
  assert (Hstop : ∀ A (o : outcome A),
    ∃ evs1 evs2 : list event,
      drop (length (trace w)) (trace (o, w1).2)
      = EvRequest (profile_request self actor) :: evs1 ++ evs2
      ∧ Forall (page_event self "app.bsky.graph.getFollowers" actor) evs1
      ∧ Forall (page_event self "app.bsky.graph.getFollows" actor) evs2
      ∧ (evs1 ≠ [] → ∃ p w1', (o1, w1) = (Returned p, w1'))
      ∧ (evs2 ≠ [] → ∃ p w1' fs w2,
           (o1, w1) = (Returned p, w1')
           ∧ get_followers self actor w1' = (Returned fs, w2))
      ∧ files (o, w1).2 = files w).
  { intros A o. exists [], []. simpl. rewrite Ht1, drop_app_length. done. }
  destruct o1 as [profile| | |]; try apply Hstop. clear Hstop.
  destruct (get_followers self actor w1) as [o2 w2] eqn:E2.
  destruct (paginate_trace self "app.bsky.graph.getFollowers" actor "followers" w1)
    as (evs1 & Ht2 & Hev1 & Hf2).
  fold (get_followers self actor) in Ht2, Hf2. rewrite E2 in Ht2, Hf2.
  simpl in Ht2, Hf2.
  assert (Hstop : ∀ A (o : outcome A),
    ∃ evs1' evs2 : list event,
      drop (length (trace w)) (trace (o, w2).2)
      = EvRequest (profile_request self actor) :: evs1' ++ evs2
      ∧ Forall (page_event self "app.bsky.graph.getFollowers" actor) evs1'
      ∧ Forall (page_event self "app.bsky.graph.getFollows" actor) evs2
      ∧ (evs1' ≠ [] → ∃ p w1', (Returned profile, w1) = (Returned p, w1'))
      ∧ (evs2 ≠ [] → ∃ p w1' fs w2',
           (Returned profile, w1) = (Returned p, w1')
           ∧ get_followers self actor w1' = (Returned fs, w2'))
      ∧ files (o, w2).2 = files w).
  { intros A o. exists evs1, []. simpl.
    rewrite Ht2, Ht1, <- app_assoc, drop_app_length, app_nil_r.
    split; [done|]. split; [done|]. split; [done|]. split; [by eauto|].
    split; [done|]. congruence. }
  destruct o2 as [followers| | |]; try apply Hstop. clear Hstop.
  destruct (get_follows self actor w2) as [o3 w3] eqn:E3.
  destruct (paginate_trace self "app.bsky.graph.getFollows" actor "follows" w2)
    as (evs2 & Ht3 & Hev2 & Hf3).
  fold (get_follows self actor) in Ht3, Hf3. rewrite E3 in Ht3, Hf3.
  simpl in Ht3, Hf3.
  assert (Hend : ∀ A (o : outcome A),
    ∃ evs1' evs2' : list event,
      drop (length (trace w)) (trace (o, w3).2)
      = EvRequest (profile_request self actor) :: evs1' ++ evs2'
      ∧ Forall (page_event self "app.bsky.graph.getFollowers" actor) evs1'
      ∧ Forall (page_event self "app.bsky.graph.getFollows" actor) evs2'
      ∧ (evs1' ≠ [] → ∃ p w1', (Returned profile, w1) = (Returned p, w1'))
      ∧ (evs2' ≠ [] → ∃ p w1' fs w2',
           (Returned profile, w1) = (Returned p, w1')
           ∧ get_followers self actor w1' = (Returned fs, w2'))
      ∧ files (o, w3).2 = files w).
  { intros A o. exists evs1, evs2. simpl.
    rewrite Ht3, Ht2, Ht1, <- !app_assoc, drop_app_length.
    split; [done|]. split; [done|]. split; [done|]. split; [by eauto|].
    split; [by eauto 6|]. congruence. }
  destruct o3 as [follows| | |]; apply Hend.
Qed.

(** X7.  Every request of a build is a GET for the actor that carries the
    credential of the session: the bearer token of the login when the
    client is authenticated, none when it is not. *)
Theorem build_requests_carry_session handle password w c w1 :
  new_client handle password w = (Returned c, w1) →
  (if BlueskyClient.authenticated c
   then ∃ token, BlueskyClient.access_token c = Some token
                 ∧ BlueskyClient.authorization c = Some ("Bearer " +:+ token)
   else BlueskyClient.authorization c = None)
  ∧ (∀ actor r,
       EvRequest r ∈ new_events w1 (get_social_graph c actor w1).2 →
       req_method r = GET
       ∧ req_authorization r = BlueskyClient.authorization c
       ∧ dict_get "actor" (req_params r) = Some (JStr actor)).
Proof.
  intros Hnew. split.
  - unfold new_client in Hnew.
    assert (Hlogin : ∀ h p, _login (BlueskyClient.mk None None false None) h p w
                            = (Returned c, w1) →
              if BlueskyClient.authenticated c
              then ∃ token, BlueskyClient.access_token c = Some token
                     ∧ BlueskyClient.authorization c = Some ("Bearer " +:+ token)
              else BlueskyClient.authorization c = None).
    { intros h p (token & did & ->)%login_client. simpl. by exists token. }
    destruct handle as [h|], password as [p|];
      try (by injection Hnew as <- _).
    destruct (str_truthy h && str_truthy p); [by eapply Hlogin|].
    by injection Hnew as <- _.
  - intros actor r.
    destruct (get_social_graph_events c actor w1)
      as (evs1 & evs2 & -> & Hev1 & Hev2 & _).
    rewrite Forall_forall in Hev1, Hev2.
    intros [[= ->]|[Hin|Hin]%elem_of_app]%elem_of_cons; [done|..].
    + destruct (Hev1 _ Hin) as [cursor ->]. done.
    + destruct (Hev2 _ Hin) as [cursor ->]. done.
Qed.

Lemma build_requests_carry_session_witness :
  let w := service (mk_response 200 (Some session_body) :: script scenario) in
  ∃ c w1, new_client (Some "me.test") (Some "app-password") w = (Returned c, w1)
    ∧ BlueskyClient.authorization c = Some "Bearer token"
    ∧ (∀ r, EvRequest r ∈ new_events w1 (get_social_graph c "alice.test" w1).2 →
            req_authorization r = Some "Bearer token").
Proof.
  intros w. eexists _, _. split; [reflexivity|]. split; [reflexivity|].
  intros r Hr.
  exact (proj1 (proj2 (proj2 (build_requests_carry_session (Some "me.test")
                               (Some "app-password") w _ _ eq_refl)
                         "alice.test" r Hr))).
Defined.

(** X8.  A build that returns has sent the profile request, then fetched
    the followers to the end, then the follows, each from its own
    endpoint, taking the responses of the service in that order; the graph
    holds the entries of these pages, the profile and the actor asked for.
    No file is written. *)
Theorem build_fetches_in_order self actor w g w' :
  get_social_graph self actor w = (Returned g, w') →
  ∃ answer pages1 pages2,
    script w = answer :: pages1 ++ pages2 ++ script w'
    ∧ new_events w w'
      = EvRequest (profile_request self actor)
        :: page_trace self "app.bsky.graph.getFollowers" actor JNull pages1
        ++ page_trace self "app.bsky.graph.getFollows" actor JNull pages2
    ∧ SocialGraph.followers g = concat (page_entries "followers" <$> pages1)
    ∧ SocialGraph.follows g = concat (page_entries "follows" <$> pages2)
    ∧ SocialGraph.actor g = actor
    ∧ is_Some (SocialGraph.profile g)
    ∧ files w' = files w.
Proof.
  intros (profile & w1 & w2 & Hp & Hfs & Hfl & Hactor & Hprofile & _)
    %get_social_graph_returned.
  rewrite get_profile_step in Hp. simpl in Hp.
  destruct (script w) as [|answer rest] eqn:Hscr; [done|].
  injection Hp as _ <-.
  unfold get_followers, _paginate in Hfs.
  apply paginate_loop_pages in Hfs as (pages1 & _ & Hs1 & Hes1 & Ht1 & Hf1).
  unfold get_follows, _paginate in Hfl.
  apply paginate_loop_pages in Hfl as (pages2 & _ & Hs2 & Hes2 & Ht2 & Hf2).
  simpl in *. exists answer, pages1, pages2.
  split; [by rewrite Hs1, Hs2|].
  split; [unfold new_events; by rewrite Ht2, Ht1, <- !app_assoc, drop_app_length|].
  rewrite Hprofile. split; [done|]. split; [done|]. split; [done|].
  split; [by eexists|congruence].
Qed.

Lemma build_fetches_in_order_witness :
  ∃ answer pages1 pages2,
    script scenario = answer :: pages1 ++ pages2 ++ []
    ∧ SocialGraph.follows scenario_graph
      = concat (page_entries "follows" <$> pages2).
Proof.
  assert (H : get_social_graph anonymous "alice.test" scenario
              = (Returned scenario_graph, mk_world []
                   (trace (get_social_graph anonymous "alice.test" scenario).2) ∅))
    by (by vm_compute).
  destruct (build_fetches_in_order _ _ _ _ _ H)
    as (answer & pages1 & pages2 & Hs & _ & _ & Hfl & _).
  exists answer, pages1, pages2. exact (conj Hs Hfl).
Defined.

(** X9.  A build stops at its first failure: the profile request always
    comes first; a request for followers is sent only after the profile
    lookup returned, a request for follows only after the fetch of the
    followers returned as well; and a graph is returned only when all three
    steps returned. *)
Theorem build_stops_at_first_failure self actor w :
  (∃ evs, new_events w (get_social_graph self actor w).2
          = EvRequest (profile_request self actor) :: evs)
  ∧ (∀ r, EvRequest r ∈ new_events w (get_social_graph self actor w).2 →
       req_url r = base_url self +:+ "/" +:+ "app.bsky.graph.getFollowers" →
       ∃ p w1, get_profile self actor w = (Returned p, w1))
  ∧ (∀ r, EvRequest r ∈ new_events w (get_social_graph self actor w).2 →
       req_url r = base_url self +:+ "/" +:+ "app.bsky.graph.getFollows" →
       ∃ p w1 fs w2,
         get_profile self actor w = (Returned p, w1)
         ∧ get_followers self actor w1 = (Returned fs, w2))
  ∧ (∀ g w', get_social_graph self actor w = (Returned g, w') →
       ∃ p w1 w2,
         get_profile self actor w = (Returned p, w1)
         ∧ get_followers self actor w1 = (Returned (SocialGraph.followers g), w2)
         ∧ get_follows self actor w2 = (Returned (SocialGraph.follows g), w')).
Proof.
  destruct (get_social_graph_events self actor w)
    as (evs1 & evs2 & -> & Hev1 & Hev2 & H1 & H2 & _).
  destruct (endpoints_differ self) as (Hd1 & Hd2 & Hd3).
  rewrite Forall_forall in Hev1, Hev2.
  split; [by eexists|]. split; [|split].
  - intros r [[= ->]|[Hin|Hin]%elem_of_app]%elem_of_cons Hurl.
    + by destruct Hd1.
    + apply H1. intros ->. by apply elem_of_nil in Hin.
    + destruct (Hev2 _ Hin) as [cursor ->]. simpl in Hurl. by destruct Hd3.
  - intros r [[= ->]|[Hin|Hin]%elem_of_app]%elem_of_cons Hurl.
    + by destruct Hd2.
    + destruct (Hev1 _ Hin) as [cursor ->]. simpl in Hurl. by destruct Hd3.
    + apply H2. intros ->. by apply elem_of_nil in Hin.
  - intros g w' (p & w1 & w2 & ? & ? & ? & _)%get_social_graph_returned.
    by exists p, w1, w2.
Qed.

Lemma build_stops_at_first_failure_witness :
  let w := service [mk_response 404 None; page_one] in
  ¬ ∃ r, EvRequest r ∈ new_events w (get_social_graph anonymous "alice.test" w).2
         ∧ req_url r = base_url anonymous +:+ "/" +:+ "app.bsky.graph.getFollowers".
Proof.
  intros w (r & Hr & Hurl).
  destruct (proj1 (proj2 (build_stops_at_first_failure anonymous "alice.test" w))
              r Hr Hurl) as (p & w1 & Hp).
  discriminate Hp.
Defined.

(** ** The derived lists *)

(** X10.  In a graph that was built, the follows are the mutuals together
    with those not following back; the identifiers of the mutuals are
    exactly the identifiers found both among the followers and among the
    follows; and a fan shares its identifier with no follow, a follow that
    is not followed back with no follower. *)
Theorem derived_lists_split self actor w g w' :
  get_social_graph self actor w = (Returned g, w') →
  SocialGraph.mutuals g ++ not_followed_back g ≡ₚ SocialGraph.follows g
  ∧ length (SocialGraph.follows g)
    = (length (SocialGraph.mutuals g) + length (not_followed_back g))%nat
  ∧ (∀ d, d ∈ GraphEntry.did <$> SocialGraph.mutuals g
          ↔ d ∈ GraphEntry.did <$> SocialGraph.followers g
            ∧ d ∈ GraphEntry.did <$> SocialGraph.follows g)
  ∧ (∀ x y, x ∈ fans g → y ∈ SocialGraph.follows g →
            GraphEntry.did x ≠ GraphEntry.did y)
  ∧ (∀ x y, x ∈ not_followed_back g → y ∈ SocialGraph.followers g →
            GraphEntry.did x ≠ GraphEntry.did y).
Proof.
  intros (_ & _ & _ & _ & _ & _ & _ & _ & Hm)%get_social_graph_returned.
  assert (Hperm : SocialGraph.mutuals g ++ not_followed_back g
                  ≡ₚ SocialGraph.follows g).
  { rewrite Hm. unfold not_followed_back. apply filter_app_complement. }
  split; [done|]. split; [by rewrite <- Hperm, length_app|].
  split; [|split].
  - intros d. rewrite Hm, !list_elem_of_fmap. split.
    + intros (m & -> & [Hin Hfl]%list_elem_of_filter).
      apply elem_of_list_to_set, list_elem_of_fmap in Hin.
      split; [done|by exists m].
    + intros [Hfs (f & -> & Hin)]. exists f. split; [done|].
      apply list_elem_of_filter. split; [|done].
      by apply elem_of_list_to_set, list_elem_of_fmap.
  - intros x y [Hx _]%list_elem_of_filter Hy Heq. apply Hx.
    rewrite Heq. by apply elem_of_list_to_set, list_elem_of_fmap_2.
  - intros x y [Hx _]%list_elem_of_filter Hy Heq. apply Hx.
    rewrite Heq. by apply elem_of_list_to_set, list_elem_of_fmap_2.
Qed.

Lemma derived_lists_split_witness :
  SocialGraph.mutuals scenario_graph ++ not_followed_back scenario_graph
  ≡ₚ SocialGraph.follows scenario_graph.
Proof.
  assert (H : get_social_graph anonymous "alice.test" scenario
              = (Returned scenario_graph,
                 (get_social_graph anonymous "alice.test" scenario).2)).
  { rewrite <- scenario_built. by destruct (get_social_graph _ _ _). }
  exact (proj1 (derived_lists_split _ _ _ _ _ H)).
Defined.

(** ** What the exports hold *)

(** X11.  The CSV export leaves nobody out and adds nobody: the
    identifiers of its rows are those of the followers and of the follows.
    Every row is labelled "mutual", "follower" or "following" and has the
    six columns of the header as its keys, so that the writer takes each
    cell from the row and none from its default. *)
Theorem csv_rows_cover_graph graph :
  (∀ d, (∃ row, row ∈ csv_rows graph ∧ dict_get "did" row = Some d)
        ↔ d ∈ GraphEntry.did <$> SocialGraph.followers graph
          ∨ d ∈ GraphEntry.did <$> SocialGraph.follows graph)
  ∧ (∀ row, row ∈ csv_rows graph →
       row.*1 = fieldnames
       ∧ dict_writerow row = csv_writerow row.*2
       ∧ ∃ rel, dict_get "relationship" row = Some rel
                ∧ rel ∈ ["mutual"; "follower"; "following"]).
Proof.
  assert (Hrow : ∀ row, row ∈ csv_rows graph →
            ∃ rel e, row = csv_rowdict rel e
              ∧ rel ∈ ["mutual"; "follower"; "following"]
              ∧ (e ∈ SocialGraph.followers graph ∨ e ∈ SocialGraph.follows graph)).
  { intros row [Hin|Hin]%elem_of_app.
    - apply list_elem_of_fmap in Hin as (e & -> & He).
      eexists _, e. split; [done|]. split; [|by left].
      destruct (bool_decide _); set_solver.
    - apply list_elem_of_fmap in Hin as (e & -> & [_ He]%list_elem_of_filter).
      exists "following", e. split; [done|]. split; [set_solver|by right]. }
  split.
  - intros d. split.
    + intros (row & (rel & e & -> & _ & He)%Hrow & [= <-]).
      destruct He; [left|right]; by apply list_elem_of_fmap_2.
    + assert (Hfollower : ∀ e, e ∈ SocialGraph.followers graph →
                ∃ rel, csv_rowdict rel e ∈ csv_rows graph).
      { intros e He. eexists. apply elem_of_app. left.
        unfold csv_follower_rows. apply list_elem_of_fmap.
        exists e. split; [reflexivity|done]. }
      intros [(e & -> & He)%list_elem_of_fmap|(e & -> & He)%list_elem_of_fmap].
      * destruct (Hfollower e He) as [rel Hrel].
        by exists (csv_rowdict rel e).
      * destruct (decide (GraphEntry.did e
                          ∈ GraphEntry.did <$> SocialGraph.followers graph))
          as [(f & Hdid & Hf)%list_elem_of_fmap|Hnot].
        -- destruct (Hfollower f Hf) as [rel Hrel].
           exists (csv_rowdict rel f). split; [done|]. simpl. by rewrite Hdid.
        -- exists (csv_rowdict "following" e). split; [|done].
           apply elem_of_app. right. unfold csv_follow_rows.
           apply list_elem_of_fmap_2, list_elem_of_filter. split; [|done].
           by rewrite elem_of_list_to_set.
  - intros row (rel & e & -> & Hrel & _)%Hrow.
    split; [done|]. split; [done|]. by exists rel.
Qed.

Lemma csv_rows_cover_graph_witness :
  ∃ row, row ∈ csv_rows scenario_graph ∧ dict_get "did" row = Some "did:plc:d".
Proof.
  assert (H : "did:plc:d" ∈ GraphEntry.did <$> SocialGraph.follows scenario_graph)
    by compute_done.
  exact (proj2 (proj1 (csv_rows_cover_graph scenario_graph) "did:plc:d")
           (or_intror H)).
Defined.

Lemma asdict_entry_inj e1 e2 : asdict_entry e1 = asdict_entry e2 → e1 = e2.
Proof. destruct e1, e2. by intros [= -> -> -> -> ->]. Qed.

Lemma asdict_profile_inj p1 p2 : asdict_profile p1 = asdict_profile p2 → p1 = p2.
Proof. destruct p1, p2. by intros [= -> -> -> -> -> -> ->]. Qed.

Lemma fmap_asdict_entry_inj (l1 l2 : list GraphEntry.t) :
  asdict_entry <$> l1 = asdict_entry <$> l2 → l1 = l2.
Proof.
  apply list_fmap_eq_inj. intros e1 e2. apply asdict_entry_inj.
Qed.

(** X12.  The JSON export loses nothing of the graph: two graphs with the
    same exported data are the same graph. *)
Theorem export_json_data_inj g1 g2 :
  export_json_data g1 = export_json_data g2 → g1 = g2.
Proof.
  destruct g1 as [a1 p1 fs1 fl1 m1], g2 as [a2 p2 fs2 fl2 m2].
  unfold export_json_data; simpl.
  intros [= -> Hp Hfs Hfl Hm _ _ _].
  apply fmap_asdict_entry_inj in Hfs, Hfl, Hm. subst.
  f_equal. destruct p1 as [p1|], p2 as [p2|]; try done.
  f_equal. by apply asdict_profile_inj.
Qed.

Lemma export_json_data_inj_witness :
  SocialGraph.mk "alice.test" None [] [entry "did:plc:b" "b.test"] []
  = SocialGraph.mk "alice.test" None ([] ++ []) [entry ("did:plc:" +:+ "b") "b.test"] [].
Proof. exact (export_json_data_inj _ _ eq_refl). Defined.

(** ** String literals of the JSON export *)

(** X13.  Different strings are never written as the same JSON string
    literal: the escaping of [json.dumps] can be undone. *)
Theorem encode_basestring_inj s1 s2 :
  encode_basestring s1 = encode_basestring s2 → s1 = s2.
Proof.
  unfold encode_basestring. intros H.
  change (String dquote
            (String.concat "" (escape_char <$> list_ascii_of_string s1) +:+ str dquote)
          = String dquote
              (String.concat "" (escape_char <$> list_ascii_of_string s2) +:+ str dquote))
    in H.
  injection H as H.
  apply string_app_inv_tail, escape_concat_inj in H.
  apply (f_equal string_of_list_ascii) in H.
  by rewrite !string_of_list_ascii_of_string in H.
Qed.

Lemma encode_basestring_inj_witness : "a" +:+ str LF = "a" +:+ str LF.
Proof. exact (encode_basestring_inj _ _ eq_refl). Defined.

(** X14.  The JSON text written for any value holds no control character
    but the line feeds of its layout: every character is a line feed or
    has a code of 32 or more, and inside a string literal, a key or a
    value, there is none below 32 at all; line breaks, tabs and the like
    are written escaped there. *)
Theorem json_text_no_control :
  (∀ s, Forall (λ a, (32 ≤ nat_of_ascii a)%nat)
          (list_ascii_of_string (encode_basestring s)))
  ∧ (∀ v, Forall (λ a, a = LF ∨ (32 ≤ nat_of_ascii a)%nat)
            (list_ascii_of_string (json_dumps v)))
  ∧ (∀ graph path, ∃ text,
       export_json graph path = write_text path text
       ∧ Forall (λ a, a = LF ∨ (32 ≤ nat_of_ascii a)%nat)
           (list_ascii_of_string text)).
Proof.
  assert (Hall : ∀ v, Forall (λ a, a = LF ∨ (32 ≤ nat_of_ascii a)%nat)
                        (list_ascii_of_string (json_dumps v))).
  { intros v. apply Forall_forall. intros a Ha%list_elem_of_In.
    pose proof (proj1 (forallb_forall _ _) (dumps_at_chars v 0%nat) a Ha) as H.
    apply orb_true_iff in H as [H%Ascii.eqb_eq|H%Nat.leb_le]; auto. }
  split; [|split; [done|]].
  - intros s. apply Forall_forall. intros a Ha%list_elem_of_In. apply Nat.leb_le.
    by apply (proj1 (forallb_forall _ _) (encode_basestring_chars s)).
  - intros graph path. by eexists.
Qed.

(** ** Records of the CSV export *)

(** X15.  A record of the CSV export can be read back: two rows of as many
    fields that are written the same are the same row, whatever commas,
    quotes or line breaks the fields hold.  So a data row of the export
    gives back its label and its entry. *)
Theorem csv_writerow_inj :
  (∀ fs1 fs2 : list string,
     length fs1 = length fs2 → csv_writerow fs1 = csv_writerow fs2 → fs1 = fs2)
  ∧ (∀ rel1 rel2 e1 e2,
       dict_writerow (csv_rowdict rel1 e1) = dict_writerow (csv_rowdict rel2 e2) →
       rel1 = rel2 ∧ e1 = e2).
Proof.
  assert (Hrows : ∀ fs1 fs2 : list string,
     length fs1 = length fs2 → csv_writerow fs1 = csv_writerow fs2 → fs1 = fs2).
  { intros fs1 fs2 Hlen H. unfold csv_writerow in H.
    apply (csv_fields_inj fs1 fs2 (str CR +:+ str LF)); [done| |done].
    split; [reflexivity|discriminate]. }
  split; [done|].
  intros rel1 rel2 [d1 h1 n1 s1 i1] [d2 h2 n2 s2 i2] H.
  apply Hrows in H; [|done]. by injection H as -> -> -> -> -> ->.
Qed.

Lemma csv_writerow_inj_witness :
  ["a,b"; str dquote] = ["a," +:+ "b"; str dquote +:+ ""].
Proof.
  exact (proj1 csv_writerow_inj ["a,b"; str dquote]
           ["a," +:+ "b"; str dquote +:+ ""] eq_refl eq_refl).
Defined.

(** ** How a run ends *)

Lemma obind_no_exit {A B} (o : outcome A) (k : A → outcome B) :
  no_exit o → (∀ a, no_exit (k a)) → no_exit (obind o k).
Proof.
  unfold no_exit. destruct o; simpl; intros Ho Hk code; [apply Hk| |done..].
  intros [= ->]. by apply (Ho code).
Qed.

Lemma py_subscript_no_exit v k : no_exit (py_subscript v k).
Proof.
  intros code. unfold py_subscript. destruct v; try done.
  by destruct (dict_get k fields).
Qed.

Lemma py_get_no_exit v k d : no_exit (py_get v k d).
Proof. intros code. by destruct v. Qed.

Lemma as_str_no_exit v : no_exit (as_str v).
Proof. intros code. by destruct v. Qed.

Lemma as_int_no_exit v : no_exit (as_int v).
Proof. intros code. by destruct v. Qed.

Lemma raise_for_status_no_exit resp : no_exit (raise_for_status resp).
Proof. intros code. unfold raise_for_status. by destruct (is_error _). Qed.

Lemma response_json_no_exit resp : no_exit (response_json resp).
Proof. intros code. unfold response_json. by destruct (body resp). Qed.

Lemma entry_of_item_no_exit item : no_exit (entry_of_item item).
Proof.
  unfold entry_of_item.
  repeat (apply obind_no_exit;
          [first [apply py_subscript_no_exit | apply py_get_no_exit
                 | apply as_str_no_exit]|intros ?]).
  by intros code.
Qed.

Lemma profile_of_json_no_exit d : no_exit (profile_of_json d).
Proof.
  unfold profile_of_json.
  repeat (apply obind_no_exit;
          [first [apply py_subscript_no_exit | apply py_get_no_exit
                 | apply as_str_no_exit | apply as_int_no_exit]|intros ?]).
  by intros code.
Qed.

Lemma append_items_no_exit entries items : no_exit (append_items entries items).
Proof.
  revert entries; induction items as [|it rest IH]; intros entries; simpl.
  - by intros code.
  - apply obind_no_exit; [apply entry_of_item_no_exit|auto].
Qed.

Lemma page_result_no_exit key entries resp : no_exit (page_result key entries resp).
Proof.
  unfold page_result.
  apply obind_no_exit; [apply raise_for_status_no_exit|intros _].
  apply obind_no_exit; [apply response_json_no_exit|intros data].
  apply obind_no_exit; [apply py_get_no_exit|intros v_items].
  apply obind_no_exit; [by intros code; destruct v_items|intros items].
  apply obind_no_exit; [apply append_items_no_exit|intros entries'].
  apply obind_no_exit; [apply py_get_no_exit|by intros ? code].
Qed.

Lemma paginate_loop_no_exit self endpoint actor key fuel entries cursor page w :
  no_exit (paginate_loop fuel self endpoint actor key entries cursor page w).1.
Proof.
  revert entries cursor page w.
  induction fuel as [|fuel IH]; intros entries cursor page w; [by intros code|].
  rewrite paginate_loop_step; simpl.
  destruct (script w) as [|resp rest]; [by intros code|].
  pose proof (page_result_no_exit key entries resp) as Hpage.
  destruct (page_result key entries resp) as [[es c]|e| |];
    [|intros code [= ->]; by apply (Hpage code)|by intros code..].
  destruct (truthy c); [apply IH|by intros code].
Qed.

Lemma get_profile_no_exit self actor w : no_exit (get_profile self actor w).1.
Proof.
  rewrite get_profile_step; simpl.
  destruct (script w) as [|resp rest]; [by intros code|]. simpl.
  apply obind_no_exit; [apply raise_for_status_no_exit|intros _].
  apply obind_no_exit; [apply response_json_no_exit|apply profile_of_json_no_exit].
Qed.

Lemma bind_no_exit {A B} (m : M A) (k : A → M B) w :
  no_exit (m w).1 → (∀ a w', no_exit (k a w').1) → no_exit ((m ≫= k) w).1.
Proof.
  unfold mbind, M_bind. destruct (m w) as [[a|e| |] w1]; simpl; intros Hm Hk;
    [apply Hk| |by intros code..].
  intros code [= ->]. by apply (Hm code).
Qed.

Lemma get_social_graph_no_exit self actor w :
  no_exit (get_social_graph self actor w).1.
Proof.
  unfold get_social_graph.
  apply bind_no_exit; [apply get_profile_no_exit|intros profile w1].
  apply bind_no_exit; [apply paginate_loop_no_exit|intros followers w2].
  apply bind_no_exit; [apply paginate_loop_no_exit|intros follows w3].
  by intros code.
Qed.

Lemma new_client_no_exit handle password w :
  no_exit (new_client handle password w).1
  ∧ files (new_client handle password w).2 = files w.
Proof.
  assert (Hlogin : ∀ h p, no_exit (_login anonymous h p w).1
                          ∧ files (_login anonymous h p w).2 = files w).
  { intros h p. split.
    - intros code H. destruct (login_raises _ _ _ _ _ H) as [Hne _].
      by apply (Hne code).
    - rewrite login_step; simpl. by destruct (script w). }
  unfold new_client. fold anonymous.
  destruct handle as [h|], password as [p|]; try (split; [by intros code|done]).
  destruct (str_truthy h && str_truthy p); [apply Hlogin|].
  split; [by intros code|done].
Qed.

(** The export step of [main], on a graph. *)
Lemma main_unfold args w :
  main args w =
  match new_client (Args.handle args) (Args.password args) w with
  | (Returned client, w1) =>
      match get_social_graph client (Args.actor args) w1 with
      | (Returned graph, w2) =>
          match Args.export args with
          | Some fmt =>
              let default_path :=
                replace_dots (Args.actor args) +:+ "_graph." +:+ format_name fmt in
              let output_path :=
                match Args.output args with
                | Some o => if str_truthy o then o else default_path
                | None => default_path
                end in
              (Returned (),
               mk_world (script w2) (trace w2)
                 (<[output_path := export_text fmt graph]> (files w2)))
          | None => (Returned (), w2)
          end
      | (Raised (HTTPError _), w2) => (Raised (SystemExit 1), w2)
      | (Raised e, w2) => (Raised e, w2)
      | (Starved, w2) => (Starved, w2)
      | (Untyped, w2) => (Untyped, w2)
      end
  | (Raised e, w1) => (Raised e, w1)
  | (Starved, w1) => (Starved, w1)
  | (Untyped, w1) => (Untyped, w1)
  end.
Proof.
  unfold main, mbind, M_bind, except_HTTPError.
  destruct (new_client _ _ w) as [[client| | |] w1]; try done.
  destruct (get_social_graph client _ w1) as [[graph|e| |] w2]; try done.
  - destruct (Args.export args) as [[]|]; done.
  - by destruct e.
Qed.

Lemma main_outcome args w :
  (main args w).1 =
  match new_client (Args.handle args) (Args.password args) w with
  | (Returned client, w1) =>
      match (get_social_graph client (Args.actor args) w1).1 with
      | Returned _ => Returned ()
      | Raised (HTTPError _) => Raised (SystemExit 1)
      | Raised e => Raised e
      | Starved => Starved
      | Untyped => Untyped
      end
  | (Raised e, _) => Raised e
  | (Starved, _) => Starved
  | (Untyped, _) => Untyped
  end.
Proof.
  rewrite main_unfold.
  destruct (new_client _ _ w) as [[client| | |] w1]; try done.
  destruct (get_social_graph client _ w1) as [[graph|e| |] w2]; try done.
  - by destruct (Args.export args).
  - by destruct e.
Qed.

(** X16.  A run in which the login or the build raises ends with exit
    status 1, whichever exception of [exn] it is and whether [main]
    handles it or not. *)
Theorem exit_status_of_failed_build args w :
  (∀ e, (new_client (Args.handle args) (Args.password args) w).1 = Raised e →
        (run args w).1 = Returned 1)
  ∧ (∀ c w1 e,
       new_client (Args.handle args) (Args.password args) w = (Returned c, w1) →
       (get_social_graph c (Args.actor args) w1).1 = Raised e →
       (run args w).1 = Returned 1).
Proof.
  assert (Hrun : (run args w).1 = exit_status (main args w).1).
  { unfold run. by destruct (main args w). }
  rewrite Hrun, main_outcome.
  pose proof (proj1 (new_client_no_exit (Args.handle args) (Args.password args) w))
    as Hc.
  destruct (new_client _ _ w) as [[c|e| |] w1] eqn:Hnew; simpl in Hc; try done.
  - pose proof (get_social_graph_no_exit c (Args.actor args) w1) as Hg.
    split; [done|].
    intros c' w1' e [= <- <-] He. rewrite He.
    destruct e; try done. by destruct (Hg code).
  - split; [|done].
    intros e' [= <-]. destruct e; try done. by destruct (Hc code).
Qed.

Lemma exit_status_of_failed_build_witness :
  (run (Args.mk "alice.test" None None (Some ExportJson) None)
     (service [mk_response 200 (Some profile_body); mk_response 200 None])).1
  = Returned 1.
Proof.
  exact (proj2 (exit_status_of_failed_build
                  (Args.mk "alice.test" None None (Some ExportJson) None)
                  (service [mk_response 200 (Some profile_body);
                            mk_response 200 None]))
           anonymous _ JSONDecodeError eq_refl eq_refl).
Defined.

Lemma get_social_graph_files self actor w :
  files (get_social_graph self actor w).2 = files w.
Proof. by destruct (get_social_graph_events self actor w) as (? & ? & _ & _ & _ & _ & _ & ?). Qed.

(** X17.  When the login or the build raises, the run ends where the
    failure left it: no exporter is reached, so that no file is created or
    written, whatever export format and output path were asked for. *)
Theorem failed_build_writes_nothing args w :
  (∀ e, (new_client (Args.handle args) (Args.password args) w).1 = Raised e →
        (run args w).2 = (new_client (Args.handle args) (Args.password args) w).2
        ∧ files (run args w).2 = files w)
  ∧ (∀ c w1 e,
       new_client (Args.handle args) (Args.password args) w = (Returned c, w1) →
       (get_social_graph c (Args.actor args) w1).1 = Raised e →
       (run args w).2 = (get_social_graph c (Args.actor args) w1).2
       ∧ files (run args w).2 = files w).
Proof.
  assert (Hrun : (run args w).2 = (main args w).2).
  { unfold run. by destruct (main args w). }
  rewrite Hrun, main_unfold.
  pose proof (proj2 (new_client_no_exit (Args.handle args) (Args.password args) w))
    as Hf1.
  destruct (new_client _ _ w) as [[c|e| |] w1]; simpl in *; try done.
  split; [done|]. intros c' w1' e [= <- <-] He.
  pose proof (get_social_graph_files c (Args.actor args) w1) as Hf2.
  destruct (get_social_graph c _ w1) as [o w2]; simpl in *. subst o.
  destruct e; simpl; split; congruence.
Qed.

Lemma failed_build_writes_nothing_witness :
  let args := Args.mk "alice.test" None None (Some ExportJson) (Some "out.json") in
  let w := service [mk_response 200 (Some profile_body); mk_response 500 None] in
  files (run args w).2 = ∅.
Proof.
  intros args w.
  exact (proj2 (proj2 (failed_build_writes_nothing args w)
                  anonymous _ (HTTPError 500) eq_refl eq_refl)).
Defined.



(** ** The default file name *)

Lemma string_length_list (s : string) :
  String.length s = length (list_ascii_of_string s).
Proof. induction s as [|c s IH]; simpl; [done|by rewrite IH]. Qed.

(** X19.  Replacing the dots of a name keeps its length, leaves no dot,
    changes nothing in a name without dots, and is done once and for all.
    So a default file name has one dot, the one before the format: it is a
    stem without a dot, the dot, and the format, which has none. *)
Theorem replace_dots_no_dot (s : string) :
  ("."%char ∉ list_ascii_of_string (replace_dots s))
  ∧ String.length (replace_dots s) = String.length s
  ∧ ("."%char ∉ list_ascii_of_string s → replace_dots s = s)
  ∧ replace_dots (replace_dots s) = replace_dots s
  ∧ (∀ fmt,
       let name := replace_dots s +:+ "_graph." +:+ format_name fmt in
       (∃ stem, name = stem +:+ "." +:+ format_name fmt
                ∧ ("."%char ∉ list_ascii_of_string stem)
                ∧ ("."%char ∉ list_ascii_of_string (format_name fmt)))
       ∧ length (filter (λ c, c = "."%char) (list_ascii_of_string name)) = 1%nat).
Proof.
  assert (Hlist : ∀ l : list ascii,
            "."%char ∉ (λ c, if Ascii.eqb c "."%char then "_"%char else c) <$> l).
  { intros l (c & Hc & _)%list_elem_of_fmap.
    destruct (Ascii.eqb c ".") eqn:E; [done|]. apply Ascii.eqb_neq in E. done. }
  assert (Hid : ∀ l : list ascii, "."%char ∉ l →
            (λ c, if Ascii.eqb c "."%char then "_"%char else c) <$> l = l).
  { intros l Hl. induction l as [|c l IH]; [done|].
    apply not_elem_of_cons in Hl as [Hc Hl]. rewrite fmap_cons, IH by done.
    apply not_eq_sym, Ascii.eqb_neq in Hc. by rewrite Hc. }
  assert (Hnone : ∀ l : list ascii, "."%char ∉ l →
            filter (λ c, c = "."%char) l = []).
  { intros l Hl. induction l as [|c l IH]; [done|].
    apply not_elem_of_cons in Hl as [Hc Hl].
    rewrite filter_cons_False by (by intros ->). auto. }
  assert (Hdots : "."%char ∉ list_ascii_of_string (replace_dots s)).
  { unfold replace_dots. rewrite list_ascii_of_string_of_list_ascii. apply Hlist. }
  split; [done|]. unfold replace_dots at 1 2 3 4 5.
  rewrite !list_ascii_of_string_of_list_ascii.
  split; [|split; [|split]].
  - by rewrite !string_length_list, list_ascii_of_string_of_list_ascii, length_fmap.
  - intros Hs. by rewrite Hid, string_of_list_ascii_of_string.
  - by rewrite Hid.
  - intros fmt.
    assert (Hfmt : "."%char ∉ list_ascii_of_string (format_name fmt)).
    { destruct fmt; simpl; rewrite !not_elem_of_cons, elem_of_nil; naive_solver. }
    split.
    + exists (replace_dots s +:+ "_graph"). split; [|split; [|done]].
      * by rewrite string_app_assoc.
      * rewrite list_ascii_of_string_app, elem_of_app. intros [H|H]; [done|].
        revert H. simpl. rewrite !elem_of_cons, elem_of_nil. naive_solver.
    + rewrite !list_ascii_of_string_app, !filter_app, !length_app.
      by rewrite (Hnone _ Hdots), (Hnone _ Hfmt).
Qed.

Lemma replace_dots_no_dot_witness : replace_dots "alice_test" = "alice_test".
Proof.
  assert (H : "."%char ∉ list_ascii_of_string "alice_test") by compute_done.
  exact (proj1 (proj2 (proj2 (replace_dots_no_dot "alice_test"))) H).
Defined.

(** ** Which failures a run handles *)

(** X20.  [main] handles the HTTP errors of the build and no other
    failure: an HTTP error while the graph is fetched becomes the exit with
    status 1 that [main] asks for, every other exception of the build goes
    through unhandled, and so does any failure of the login, HTTP errors
    included, because the client is set up before the [try]. *)
Theorem main_handles_build_http_errors args w :
  (∀ e, (new_client (Args.handle args) (Args.password args) w).1 = Raised e →
        (main args w).1 = Raised e)
  ∧ (∀ c w1,
       new_client (Args.handle args) (Args.password args) w = (Returned c, w1) →
       (∀ status,
          (get_social_graph c (Args.actor args) w1).1 = Raised (HTTPError status) →
          (main args w).1 = Raised (SystemExit 1))
       ∧ (∀ e, (get_social_graph c (Args.actor args) w1).1 = Raised e →
               (∀ status, e ≠ HTTPError status) →
               (main args w).1 = Raised e)).
Proof.
  split.
  - intros e He. rewrite main_outcome.
    destruct (new_client _ _ w) as [o w1]; simpl in He. by subst o.
  - intros c w1 Hnew. rewrite main_outcome, Hnew. split.
    + by intros status ->.
    + intros e -> Hne. destruct e; try done. by destruct (Hne status).
Qed.

Lemma main_handles_build_http_errors_witness :
  (main with_login (service [mk_response 401 None])).1 = Raised (HTTPError 401)
  ∧ (main (Args.mk "alice.test" None None None None)
       (service [mk_response 401 None])).1 = Raised (SystemExit 1).
Proof.
  split.
  - exact (proj1 (main_handles_build_http_errors with_login
                    (service [mk_response 401 None])) (HTTPError 401) eq_refl).
  - exact (proj1 (proj2 (main_handles_build_http_errors
                           (Args.mk "alice.test" None None None None)
                           (service [mk_response 401 None]))
                    anonymous _ eq_refl) 401 eq_refl).
Defined.
